(** * The application router of the syslog gateway

    A shallow embedding of [src/api/applications.ts]: the Express router that
    lists and creates applications (tenants), resolves the [:applicationId]
    path parameter into an access decision, and answers the log queries
    (search, recent, history) of one tenant.

    The relational store (TypeORM repositories), the application cache and the
    Elasticsearch client are external to that file.  They appear here as an
    explicit [State] that the handlers thread through a small handler monad,
    so that every store call of the source is one monadic operation of the
    model.  The websocket route [/:applicationId/trail] only mounts a handler
    of another file and is left out. *)

From Stdlib Require DecimalString.
From stdpp Require Import gmap strings list sorting.

Local Open Scope string_scope.
#[local] Set Warnings "-register-all".

(** ** Values sent over the wire *)

(** What [res.send] serialises: JSON values.  A JavaScript object is the list
    of its fields in insertion order. *)
Inductive json : Type :=
| JNull
| JBool (b : bool)
| JNum (n : Z)
| JStr (s : string)
| JArr (items : list json)
| JObj (fields : list (string * json)).

Definition json_opt (v : option string) : json :=
  match v with
  | Some s => JStr s
  | None => JNull
  end.

(** [o.k], reading a field of an object. *)
Fixpoint get_field (k : string) (fields : list (string * json)) : option json :=
  match fields with
  | [] => None
  | (k', v) :: rest => if decide (k' = k) then Some v else get_field k rest
  end.

(** [o.k = v], assigning a field: an existing field keeps its place, a new
    one is added last. *)
Fixpoint set_field (k : string) (v : json) (fields : list (string * json))
  : list (string * json) :=
  match fields with
  | [] => [(k, v)]
  | (k', v') :: rest =>
      if decide (k' = k) then (k, v) :: rest else (k', v') :: set_field k v rest
  end.

(** The character [34], which the messages of the source put around the name
    of a parameter. *)
Definition dquote : string := String (Ascii.ascii_of_nat 34) EmptyString.

(** JavaScript truthiness of a nullable string, as tested by [if (x)] and
    [!x]: [undefined], [null] and the empty string are falsy.  The result is
    the value when it is truthy. *)
Definition truthy (v : option string) : option string :=
  match v with
  | Some "" => None
  | Some s => Some s
  | None => None
  end.

(** ** Entities *)

(** Identifiers of applications, teams and users are opaque to the router,
    which compares them, splices them into index names and receives them as
    path parameters and body fields; they are strings here.  A nullable
    column is an [option]. *)

(** [entities/application]: a row of the application table. *)
Record applicationEntity : Type := mkApplication {
  app_id : string;
  app_name : option string;
  app_key : string;
  app_teamId : option string;
  app_ownerId : option string;
  app_createdAt : Z;
  app_updatedAt : Z
}.

(** [entities/applicationTeam]: a row of the team table. *)
Record applicationTeam : Type := mkTeam {
  team_id : string;
  memberIds : list string
}.

(** [userSession['user']], of which the router only reads [id]. *)
Record sessionUser : Type := mkUser {
  user_id : string
}.

Global Instance applicationEntity_eq_dec : EqDecision applicationEntity.
Proof. solve_decision. Defined.

Global Instance applicationTeam_eq_dec : EqDecision applicationTeam.
Proof. solve_decision. Defined.

(** A document of a log index, as the search backend returns it in
    [hits.hits]: the backend's [_id] and the stored [_source] object. *)
Record searchHit : Type := mkHit {
  hit_id : string;
  hit_source : list (string * json)
}.

(** ** The state behind the router *)

Record State : Type := mkState {
  applications : list applicationEntity;        (* application table *)
  teams : list applicationTeam;                 (* team table *)
  cache : gmap string applicationEntity;        (* utils/applicationCache *)
  indices : gmap string (list searchHit)        (* Elasticsearch indices *)
}.

Definition set_applications (l : list applicationEntity) (st : State) : State :=
  mkState l (teams st) (cache st) (indices st).

Definition set_teams (l : list applicationTeam) (st : State) : State :=
  mkState (applications st) l (cache st) (indices st).

Definition set_cache (c : gmap string applicationEntity) (st : State) : State :=
  mkState (applications st) (teams st) c (indices st).

Definition set_indices (i : gmap string (list searchHit)) (st : State) : State :=
  mkState (applications st) (teams st) (cache st) i.

Definition initial_state : State := mkState [] [] ∅ ∅.

(** ** The handler monad *)

(** How one middleware or route handler ends: it calls [next()] (handing a
    value to the rest of the chain), it sends a response, or one of the
    promises it awaits rejects, in which case the [async] handler stops there
    and sends nothing. *)
Inductive Result (A : Type) : Type :=
| Next (a : A)
| Send (status : Z) (body : json)
| Reject (error : string).

Arguments Next {A} a.
Arguments Send {A} status body.
Arguments Reject {A} error.

Definition Handler (A : Type) : Type := State → State * Result A.

Global Instance Handler_ret : MRet Handler := λ A a st, (st, Next a).

Global Instance Handler_bind : MBind Handler := λ A B f m st,
  match m st with
  | (st', Next a) => f a st'
  | (st', Send status body) => (st', Send status body)
  | (st', Reject error) => (st', Reject error)
  end.

(** [res.status(code).send(body)]; [res.send(body)] has status 200. *)
Definition send {A : Type} (status : Z) (body : json) : Handler A :=
  λ st, (st, Send status body).

Definition throw {A : Type} (error : string) : Handler A :=
  λ st, (st, Reject error).

Definition read {A : Type} (f : State → A) : Handler A :=
  λ st, (st, Next (f st)).

(** The error envelope [{code, message}]. *)
Definition envelope (code : Z) (message : string) : json :=
  JObj [("code", JNum code); ("message", JStr message)].

Definition fail {A : Type} (code : Z) (message : string) : Handler A :=
  send code (envelope code message).

(** ** Store operations *)

(** [applicationRepo.findOne(id)]. *)
Definition findOne_application (rows : list applicationEntity) (i : string)
  : option applicationEntity :=
  List.find (λ a, bool_decide (app_id a = i)) rows.

(** [teamRepo.findOne(id)]. *)
Definition findOne_team (rows : list applicationTeam) (i : string)
  : option applicationTeam :=
  List.find (λ t, bool_decide (team_id t = i)) rows.

(** [memberIds.includes(userId)]. *)
Definition includes (l : list string) (x : string) : bool :=
  bool_decide (x ∈ l).

(** [applicationRepo.find({ownerId})]. *)
Definition find_by_owner (rows : list applicationEntity) (u : string)
  : list applicationEntity :=
  filter (λ a, app_ownerId a = Some u) rows.

(** [applicationRepo.find({teamId})]. *)
Definition find_by_team (rows : list applicationEntity) (t : string)
  : list applicationEntity :=
  filter (λ a, app_teamId a = Some t) rows.

(** The query [:userId = ANY ("memberIds")] on the team table. *)
Definition teams_of_member (rows : list applicationTeam) (u : string)
  : list applicationTeam :=
  filter (λ t, u ∈ memberIds t) rows.

(** Modelled from the spec: [getById] of [./utils/applicationCache], which is
    not part of the router's file.  The spec calls it a lookup of the
    Application that may be cached: a cached record is served as it is, a
    miss reads the application table and remembers the record found. *)
Definition getById (applicationId : string) : Handler (option applicationEntity) :=
  λ st,
    match cache st !! applicationId with
    | Some a => (st, Next (Some a))
    | None =>
        match findOne_application (applications st) applicationId with
        | Some a => (set_cache (<[applicationId := a]> (cache st)) st, Next (Some a))
        | None => (st, Next None)
        end
    end.

(** ** [router.use('*')] and [router.param('applicationId')] *)

Definition authenticate (user : option sessionUser) : Handler sessionUser :=
  match user with
  | None => fail 403 "Not logged in"
  | Some u => mret u
  end.

(** The access decision.  [Next a] is [req.application = a; next()].  The
    [console.time] calls around it only log and are left out. *)
Definition param_applicationId (user : sessionUser) (applicationId : string)
  : Handler applicationEntity :=
  application ← getById applicationId;
  match application with
  | None => fail 404 "Unknown application"
  | Some application =>
      if decide (app_ownerId application = Some (user_id user))
      then mret application
      else
        match truthy (app_teamId application) with
        | Some teamId =>
            team ← read (λ st, findOne_team (teams st) teamId);
            match team with
            | Some team =>
                if includes (memberIds team) (user_id user)
                then mret application
                else fail 403 "You have no access to this application"
            | None => fail 403 "You have no access to this application"
            end
        | None => fail 403 "You have no access to this application"
        end
  end.

(** ** What the world decides for one request *)

(** The inputs of a request that come from neither the request nor the
    state: the identifier the database gives to a saved row, the random key,
    the clock, whether the search backend refuses to create an index, and the
    order in which the concurrent per-team lookups of [/list] complete. *)
Record World : Type := mkWorld {
  generated_id : string;
  random_key : string;
  now : Z;
  backend_refuses : bool;
  completion : list applicationTeam → list applicationTeam
}.

(** [newApplication.save()]: the row gets its identifier and timestamps and
    is added to the table. *)
Definition save (w : World) (name : option string) (key : string)
    (teamId ownerId : option string) : Handler applicationEntity :=
  λ st,
    let row := mkApplication (generated_id w) name key teamId ownerId (now w) (now w) in
    (set_applications (applications st ++ [row]) st, Next row).

(** ** The search backend *)

(** The index of a tenant. *)
Definition index_of (application : applicationEntity) : string :=
  "syslog-" +:+ app_id application.

(** [esClient.indices.exists]. *)
Definition indices_exists (index : string) : Handler bool :=
  read (λ st, bool_decide (is_Some (indices st !! index))).

(** [esClient.indices.create]: the promise rejects when the backend refuses
    or when the index is already there. *)
Definition indices_create (w : World) (index : string) : Handler unit :=
  λ st,
    if backend_refuses w then (st, Reject "index creation failed")
    else
      match indices st !! index with
      | Some _ => (st, Reject "resource_already_exists_exception")
      | None => (set_indices (<[index := []]> (indices st)) st, Next tt)
      end.

(** The part of the query DSL the router builds. *)
Inductive rangeOp : Type := op_lt | op_lte | op_gt | op_gte.

Inductive query : Type :=
| match_all
| match_text (field : string) (text : string) (minimum_should_match : string)
| range (field : string) (op : rangeOp) (bound : string)
| bool_query (filter : option query) (must : option query).

Definition range_test (op : rangeOp) (v x : Z) : bool :=
  match op with
  | op_lt => bool_decide (v < x)%Z
  | op_lte => bool_decide (v ≤ x)%Z
  | op_gt => bool_decide (x < v)%Z
  | op_gte => bool_decide (x ≤ v)%Z
  end.

(** The [time] of a document, the sort key of every query. *)
Definition time_of (hit : searchHit) : option Z :=
  match get_field "time" (hit_source hit) with
  | Some (JNum t) => Some t
  | _ => None
  end.

(** [sort: 'time:desc']: later documents first, documents without a time
    last. *)
Definition time_desc (a b : searchHit) : Prop :=
  match time_of a, time_of b with
  | Some x, Some y => (y ≤ x)%Z
  | Some _, None => True
  | None, Some _ => False
  | None, None => True
  end.

Global Instance time_desc_dec (a b : searchHit) : Decision (time_desc a b).
Proof. unfold time_desc. destruct (time_of a), (time_of b); apply _. Defined.

(** The hit with the backend's identifier written into it:
    [let log = result._source; log._id = result._id]. *)
Definition with_id (result : searchHit) : json :=
  JObj (set_field "_id" (JStr (hit_id result)) (hit_source result)).

Definition missing_parameter (p : string) : string :=
  "Missing " +:+ dquote +:+ p +:+ dquote +:+ " parameter".

(** ** Requests *)

(** [req.body] of [/create]. *)
Record createBody : Type := mkBody {
  body_name : option string;
  body_teamId : option string
}.

(** [req.query] of the log routes. *)
Record logsQuery : Type := mkQuery {
  content : option string;
  before : option string
}.

Inductive Route : Type :=
| GET_list
| POST_create (body : createBody)
| GET_application (applicationId : string)
| GET_logs_search (applicationId : string) (q : logsQuery)
| GET_logs_recent (applicationId : string)
| GET_logs_history (applicationId : string) (q : logsQuery).

Record Request : Type := mkRequest {
  req_user : option sessionUser;
  req_route : Route
}.

(** The projection sent by [/list] and [/:applicationId]. *)
Definition summary (application : applicationEntity) : json :=
  JObj [("id", JStr (app_id application));
        ("name", json_opt (app_name application));
        ("teamId", json_opt (app_teamId application));
        ("ownerId", json_opt (app_ownerId application));
        ("createdAt", JNum (app_createdAt application));
        ("updatedAt", JNum (app_updatedAt application))].

(** A property the handler assigned.  A property that was never assigned,
    or was assigned [undefined], is not in what [res.send] serialises. *)
Definition json_assigned (k : string) (v : option string)
  : list (string * json) :=
  match v with
  | Some s => [(k, JStr s)]
  | None => []
  end.

(** The entity as [/create] sends it: the properties in the order in which
    the object got them.  The handler assigns [name], then [teamId] or
    [ownerId], then [key]; [save()] then fills in [id] and the two dates. *)
Definition entity_json (application : applicationEntity) : json :=
  JObj (json_assigned "name" (app_name application)
        ++ json_assigned "teamId" (app_teamId application)
        ++ json_assigned "ownerId" (app_ownerId application)
        ++ [("key", JStr (app_key application));
            ("id", JStr (app_id application));
            ("createdAt", JNum (app_createdAt application));
            ("updatedAt", JNum (app_updatedAt application))]).

Section Router.

(** Collaborators of the router that live outside its file. *)

(** [applicationSchema.validate(body)]: the message of the validation
    error, if the body is refused. *)
Variable applicationSchema_validate : createBody → option string.

(** JavaScript's [decodeURI], which throws on a malformed sequence. *)
Variable decodeURI : string → option string.

(** How the search backend reads the bound of a range filter as a number;
    it rejects the query when it cannot. *)
Variable range_bound : string → option Z.

(** The backend's full-text match: query text, [minimum_should_match] and
    the text of the field. *)
Variable text_match : string → string → string → bool.

(** The backend accepts the query. *)
Fixpoint admits (q : query) : bool :=
  match q with
  | match_all => true
  | match_text _ _ _ => true
  | range _ _ bound => bool_decide (is_Some (range_bound bound))
  | bool_query filter must =>
      match filter with Some q' => admits q' | None => true end
      && match must with Some q' => admits q' | None => true end
  end.

(** The document satisfies the query. *)
Fixpoint matches (q : query) (source : list (string * json)) : bool :=
  match q with
  | match_all => true
  | match_text field text msm =>
      match get_field field source with
      | Some (JStr s) => text_match text msm s
      | _ => false
      end
  | range field op bound =>
      match get_field field source, range_bound bound with
      | Some (JNum v), Some x => range_test op v x
      | _, _ => false
      end
  | bool_query filter must =>
      match filter with Some q' => matches q' source | None => true end
      && match must with Some q' => matches q' source | None => true end
  end.

(** [esClient.search({index, sort: 'time:desc', size, body: {query}})],
    giving [body.hits.hits]. *)
Definition search (index : string) (size : nat) (q : query)
  : Handler (list searchHit) :=
  λ st,
    match indices st !! index with
    | None => (st, Reject "index_not_found_exception")
    | Some documents =>
        if admits q
        then (st, Next (take size (merge_sort time_desc
                (filter (λ d, matches q (hit_source d) = true) documents))))
        else (st, Reject "parsing_exception")
    end.

(** *** [GET /list] *)
Definition get_list (w : World) (user : sessionUser) : Handler Empty_set :=
  personalApplications ← read (λ st, find_by_owner (applications st) (user_id user));
  memberTeams ← read (λ st, teams_of_member (teams st) (user_id user));
  teamApplications ← read (λ st,
    flat_map (λ team, find_by_team (applications st) (team_id team))
             (completion w memberTeams));
  send 200 (JArr (map summary (personalApplications ++ teamApplications))).

(** *** [POST /create] *)
Definition post_create (w : World) (user : sessionUser) (body : createBody)
  : Handler Empty_set :=
  match applicationSchema_validate body with
  | Some message => fail 400 message
  | None =>
      '(teamId, ownerId) ←
        match truthy (body_teamId body) with
        | Some teamId =>
            team ← read (λ st, findOne_team (teams st) teamId);
            match team with
            | None => fail 400 "Unknown team"
            | Some team =>
                if negb (includes (memberIds team) (user_id user))
                then fail 403 "You don't have access to this team"
                else mret (Some teamId, None)
            end
        | None => mret (None, Some (user_id user))
        end;
      newApplication ← save w (body_name body) (random_key w) teamId ownerId;
      indices_create w (index_of newApplication);;
      send 200 (entity_json newApplication)
  end.

(** *** [GET /:applicationId] *)
Definition get_application (application : applicationEntity) : Handler Empty_set :=
  send 200 (summary application).

(** *** [GET /:applicationId/logs/*] *)
Definition get_logs_any (application : applicationEntity) : Handler unit :=
  index_exists ← indices_exists (index_of application);
  if negb index_exists then send 200 (JArr []) else mret tt.

(** *** [GET /:applicationId/logs/search] *)
Definition get_logs_search (application : applicationEntity) (q : logsQuery)
  : Handler Empty_set :=
  match truthy (content q) with
  | None => fail 400 (missing_parameter "content")
  | Some searchContent =>
      match decodeURI searchContent with
      | None => throw "URIError"
      | Some text =>
          hits ← search (index_of application) 100 (match_text "message" text "80%");
          send 200 (JArr (map with_id hits))
      end
  end.

(** *** [GET /:applicationId/logs/recent] *)
Definition get_logs_recent (application : applicationEntity) : Handler Empty_set :=
  hits ← search (index_of application) 75 match_all;
  send 200 (JArr (map with_id hits)).

(** *** [GET /:applicationId/logs/history] *)
Definition get_logs_history (application : applicationEntity) (q : logsQuery)
  : Handler Empty_set :=
  match truthy (before q) with
  | None => fail 400 (missing_parameter "before")
  | Some before =>
      let filter := range "id" op_lt before in
      let must :=
        match truthy (content q) with
        | Some searchContent => Some (match_text "message" searchContent "80%")
        | None => None
        end in
      hits ← search (index_of application) 100 (bool_query (Some filter) must);
      send 200 (JArr (map with_id hits))
  end.

(** *** The router: middleware and routes in the order of registration *)
Definition router (w : World) (req : Request) : Handler Empty_set :=
  user ← authenticate (req_user req);
  match req_route req with
  | GET_list => get_list w user
  | POST_create body => post_create w user body
  | GET_application applicationId =>
      application ← param_applicationId user applicationId;
      get_application application
  | GET_logs_search applicationId q =>
      application ← param_applicationId user applicationId;
      get_logs_any application;;
      get_logs_search application q
  | GET_logs_recent applicationId =>
      application ← param_applicationId user applicationId;
      get_logs_any application;;
      get_logs_recent application
  | GET_logs_history applicationId q =>
      application ← param_applicationId user applicationId;
      get_logs_any application;;
      get_logs_history application q
  end.

(** *** The states the system can be in *)

(** What can happen to the state: the router serves a request (the
    database never hands out an identifier twice), the team table is
    rewritten by the team management (team identifiers are a primary key),
    the log indices change under the ingestion path and the operators of
    the backend, or the cache drops entries. *)
Inductive step : State → State → Prop :=
| step_request st w req :
    findOne_application (applications st) (generated_id w) = None →
    step st (router w req st).1
| step_teams st rows :
    NoDup (map team_id rows) →
    step st (set_teams rows st)
| step_indices st i :
    step st (set_indices i st)
| step_cache st c :
    c ⊆ cache st →
    step st (set_cache c st).

Definition reachable (st : State) : Prop := rtc step initial_state st.

End Router.

(** ** The invariant of the reachable states *)

(** Exactly one of [ownerId] and [teamId] is non-null. *)
Definition one_owner (a : applicationEntity) : Prop :=
  (is_Some (app_ownerId a) ∧ app_teamId a = None)
  ∨ (app_ownerId a = None ∧ is_Some (app_teamId a)).

Global Instance one_owner_dec (a : applicationEntity) : Decision (one_owner a).
Proof. unfold one_owner. apply _. Defined.

Record invariant (st : State) : Prop := mkInvariant {
  inv_ids : NoDup (map app_id (applications st));
  inv_owner : Forall one_owner (applications st);
  inv_teamId : Forall (λ a, app_teamId a ≠ Some "") (applications st);
  inv_teams : NoDup (map team_id (teams st));
  inv_cache : ∀ i a,
    cache st !! i = Some a → findOne_application (applications st) i = Some a
}.

(** A small program logic for handlers: from a state satisfying [P], the
    handler either goes on with a value and a state related by [Q], or ends
    the request in a state satisfying [E]. *)
Definition triple {A : Type} (P : State → Prop) (h : Handler A)
    (Q : A → State → Prop) (E : State → Prop) : Prop :=
  ∀ st, P st →
    match h st with
    | (st', Next a) => Q a st'
    | (st', _) => E st'
    end.

(** ** Notions used to state and prove the properties *)

(** The precondition of a request: the invariant, and an identifier for the
    row to be saved that the table does not hold yet. *)
Definition ready (w : World) (st : State) : Prop :=
  invariant st ∧ findOne_application (applications st) (generated_id w) = None.

(** Handlers that only read. *)
Definition reads_only {A : Type} (h : Handler A) : Prop := ∀ st, (h st).1 = st.

(** What [/create] writes into the new row for [teamId] and [ownerId]. *)
Definition creation_owner (user : sessionUser) (p : option string * option string)
  : Prop :=
  (∃ t, p = (Some t, None) ∧ t ≠ "") ∨ p = (None, Some (user_id user)).

(** The response of a denied access. *)
Definition forbidden : Result applicationEntity :=
  Send 403 (envelope 403 "You have no access to this application").

(** The row that [/create] saves. *)
Definition created_row (w : World) (body : createBody)
    (teamId ownerId : option string) : applicationEntity :=
  mkApplication (generated_id w) (body_name body) (random_key w)
    teamId ownerId (now w) (now w).

(** What is left of [/create] once the row is saved. *)
Definition provision (w : World) (row : applicationEntity) : Handler Empty_set :=
  indices_create w (index_of row);; send 200 (entity_json row).

(** The creator passes the authorization of [/create]: no team is named, or
    the named team exists and lists the creator. *)
Definition may_create (st : State) (user : sessionUser) (body : createBody)
  : Prop :=
  match truthy (body_teamId body) with
  | Some t =>
      ∃ team, findOne_team (teams st) t = Some team
        ∧ user_id user ∈ memberIds team
  | None => True
  end.

(** The applications a user may see: those the user owns and those of the
    teams that list the user. *)
Definition visible (st : State) (user : sessionUser) (a : applicationEntity)
  : Prop :=
  app_ownerId a = Some (user_id user)
  ∨ ∃ team, team ∈ teams st ∧ app_teamId a = Some (team_id team)
      ∧ user_id user ∈ memberIds team.

(** The applications that [/list] collects. *)
Definition listed (w : World) (st : State) (user : sessionUser)
  : list applicationEntity :=
  find_by_owner (applications st) (user_id user)
  ++ flat_map (λ team, find_by_team (applications st) (team_id team))
       (completion w (teams_of_member (teams st) (user_id user))).

(** ** Notions for the further properties *)

(** The routes behind the path parameter [:applicationId]. *)
Inductive tenant_route (applicationId : string) : Route → Prop :=
| tenant_application : tenant_route applicationId (GET_application applicationId)
| tenant_search q : tenant_route applicationId (GET_logs_search applicationId q)
| tenant_recent : tenant_route applicationId (GET_logs_recent applicationId)
| tenant_history q : tenant_route applicationId (GET_logs_history applicationId q).

(** The log routes among them. *)
Inductive logs_route (applicationId : string) : Route → Prop :=
| logs_search q : logs_route applicationId (GET_logs_search applicationId q)
| logs_recent : logs_route applicationId (GET_logs_recent applicationId)
| logs_history q : logs_route applicationId (GET_logs_history applicationId q).

(** [hits] are the [size] newest of the documents [matching]: they are in
    descending order of time, no document left out is newer than one of
    them, and documents are left out only when [size] is reached. *)
Definition newest (size : nat) (matching hits : list searchHit) : Prop :=
  ∃ rest,
    matching ≡ₚ hits ++ rest
    ∧ StronglySorted time_desc hits
    ∧ (∀ x y, x ∈ hits → y ∈ rest → time_desc x y)
    ∧ (length hits ≤ size)%nat
    ∧ ((length hits < size)%nat → rest = []).

(** The documents of a history page: an [id] below the bound and, when a
    content is given, a [message] that matches it. *)
Definition in_history (text_match : string → string → string → bool)
    (x : Z) (searchContent : option string) (source : list (string * json))
  : bool :=
  match get_field "id" source with
  | Some (JNum i) => bool_decide (i < x)%Z
  | _ => false
  end
  && match searchContent with
     | Some c =>
         match get_field "message" source with
         | Some (JStr m) => text_match c "80%" m
         | _ => false
         end
     | None => true
     end.

(** The [id] of a document, the cursor of the history. *)
Definition id_of (hit : searchHit) : option Z :=
  match get_field "id" (hit_source hit) with
  | Some (JNum i) => Some i
  | _ => None
  end.

(** The row of carol's application in the run below, and two more queries
    of that run. *)
Definition ex_a1 : applicationEntity :=
  mkApplication "a1" (Some "web") "k3y0k3y0k3y0k3y0k3y0" None (Some "carol") 1000 1000.

Definition ex_query_words : logsQuery := mkQuery (Some "disk full") None.

Definition ex_query_older : logsQuery := mkQuery (Some "disk full") (Some "1").

(** ** A run of the system, used to exercise the properties below *)

(** Modelled from the spec: the schema of [schemas/application], which is
    not part of the router's file, validates that [name] is present. *)
Definition name_required (body : createBody) : option string :=
  match truthy (body_name body) with
  | Some _ => None
  | None => Some "name is a required field"
  end.

(** [decodeURI] on strings without escape sequences, which it leaves as they
    are; this instance refuses every string with a percent sign. *)
Definition decode_plain (s : string) : option string :=
  if forallb (λ c, negb (Ascii.eqb c (Ascii.ascii_of_nat 37))) (String.list_ascii_of_string s)
  then Some s else None.

(** A backend that reads a bound written in decimal digits. *)
Definition decimal_bound (s : string) : option Z :=
  Z.of_uint <$> DecimalString.NilZero.uint_of_string s.

(** The words of a text, separated by spaces. *)
Fixpoint words_from (current : string) (s : string) : list string :=
  match s with
  | EmptyString => if decide (current = "") then [] else [current]
  | String c rest =>
      if Ascii.eqb c (Ascii.ascii_of_nat 32)
      then (if decide (current = "") then [] else [current]) ++ words_from "" rest
      else words_from (current +:+ String c EmptyString) rest
  end.

Definition words (s : string) : list string := words_from "" s.

(** A backend whose match counts the words of the query found in the text
    and asks for four in five of them. *)
Definition words_match (text minimum_should_match s : string) : bool :=
  let terms := words text in
  let found := filter (λ t, t ∈ words s) terms in
  bool_decide (4 * length terms ≤ 5 * length found)%nat.

Definition ex_router : World → Request → Handler Empty_set :=
  router name_required decode_plain decimal_bound words_match.

Definition alice : sessionUser := mkUser "alice".
Definition bob : sessionUser := mkUser "bob".
Definition carol : sessionUser := mkUser "carol".

Definition in_order (l : list applicationTeam) : list applicationTeam := l.

Definition ex_world (i : string) (refuses : bool) : World :=
  mkWorld i "k3y0k3y0k3y0k3y0k3y0" 1000 refuses in_order.

(** The team management creates team [t1] with alice and bob. *)
Definition ex_state0 : State :=
  set_teams [mkTeam "t1" ["alice"; "bob"]] initial_state.

(** carol creates a personal application, [a1]. *)
Definition ex_state1 : State :=
  (ex_router (ex_world "a1" false)
     (mkRequest (Some carol) (POST_create (mkBody (Some "web") None))) ex_state0).1.

(** bob creates an application of team [t1], [a2]. *)
Definition ex_state2 : State :=
  (ex_router (ex_world "a2" false)
     (mkRequest (Some bob) (POST_create (mkBody (Some "api") (Some "t1")))) ex_state1).1.

(** The ingestion path writes three records into the index of [a2]. *)
Definition ex_logs : list searchHit :=
  [mkHit "h1" [("id", JNum 1); ("time", JNum 10); ("message", JStr "disk almost full")];
   mkHit "h2" [("id", JNum 2); ("time", JNum 20); ("message", JStr "disk full on node")];
   mkHit "h3" [("id", JNum 3); ("time", JNum 30); ("message", JStr "node restarted")]].

Definition ex_state3 : State :=
  set_indices (<["syslog-a2" := ex_logs]> (indices ex_state2)) ex_state2.

(** alice reads [a2], which her membership of [t1] grants. *)
Definition ex_state4 : State :=
  (ex_router (ex_world "a3" false)
     (mkRequest (Some alice) (GET_application "a2")) ex_state3).1.

(** alice creates a personal application, [a3], while the backend refuses to
    create its index. *)
Definition ex_state5 : State :=
  (ex_router (ex_world "a3" true)
     (mkRequest (Some alice) (POST_create (mkBody (Some "batch") None))) ex_state4).1.

Definition ex_a2 : applicationEntity :=
  mkApplication "a2" (Some "api") "k3y0k3y0k3y0k3y0k3y0" (Some "t1") None 1000 1000.

Definition ex_a3 : applicationEntity :=
  mkApplication "a3" (Some "batch") "k3y0k3y0k3y0k3y0k3y0" None (Some "alice") 1000 1000.

Definition ex_team : applicationTeam := mkTeam "t1" ["alice"; "bob"].

(** The team table after alice has been taken out of [t1]. *)
Definition ex_teams_without_alice : list applicationTeam := [mkTeam "t1" ["bob"]].

(** A body without a name, and the body of alice's call. *)
Definition ex_body_nameless : createBody := mkBody None None.
Definition ex_body_batch : createBody := mkBody (Some "batch") None.

Definition ex_query_none : logsQuery := mkQuery None None.
Definition ex_query_page : logsQuery := mkQuery (Some "disk full") (Some "3").

(** A longer history for [a2]: 150 records, numbered in the order of their
    time, all about a full disk. *)
Definition ex_doc (n : nat) : searchHit :=
  mkHit ("h" +:+ DecimalString.NilZero.string_of_uint (Nat.to_uint n))
    [("id", JNum (Z.of_nat n));
     ("time", JNum (10 * Z.of_nat n));
     ("message", JStr "disk full")].

Definition ex_archive : list searchHit := map ex_doc (seq 1 150).

Definition ex_state6 : State :=
  set_indices (<["syslog-a2" := ex_archive]> (indices ex_state5)) ex_state5.

(** The first page of that history and the page that follows it: the
    records 150 down to 51, then 50 down to 1. *)
Definition ex_query_first : logsQuery := mkQuery (Some "disk full") (Some "151").
Definition ex_query_second : logsQuery := mkQuery (Some "disk full") (Some "51").
Definition ex_first_page : list searchHit := map ex_doc (rev (seq 51 100)).
Definition ex_second_page : list searchHit := map ex_doc (rev (seq 1 50)).

(** * Properties *)

(** ** Rules of the program logic *)

Lemma triple_bind {A B : Type} (P : State → Prop) (m : Handler A)
    (f : A → Handler B) (Q : A → State → Prop) (R : B → State → Prop)
    (E : State → Prop) :
  triple P m Q E → (∀ a, triple (Q a) (f a) R E) → triple P (m ≫= f) R E.
Proof.
  intros Hm Hf st HP. specialize (Hm st HP).
  unfold mbind, Handler_bind.
  destruct (m st) as [st' [a | status body | error]]; try done.
  by apply Hf.
Qed.

Lemma triple_ret {A : Type} (P : State → Prop) (a : A)
    (Q : A → State → Prop) (E : State → Prop) :
  (∀ st, P st → Q a st) → triple P (mret a) Q E.
Proof. intros H st HP. by apply H. Qed.

Lemma triple_read {A : Type} (P : State → Prop) (f : State → A)
    (Q : A → State → Prop) (E : State → Prop) :
  (∀ st, P st → Q (f st) st) → triple P (read f) Q E.
Proof. intros H st HP. by apply H. Qed.

Lemma triple_send {A : Type} (P : State → Prop) (status : Z) (body : json)
    (Q : A → State → Prop) (E : State → Prop) :
  (∀ st, P st → E st) → triple P (send status body) Q E.
Proof. intros H st HP. by apply H. Qed.

Lemma triple_fail {A : Type} (P : State → Prop) (code : Z) (message : string)
    (Q : A → State → Prop) (E : State → Prop) :
  (∀ st, P st → E st) → triple P (fail code message) Q E.
Proof. intros H. by apply triple_send. Qed.

Lemma triple_throw {A : Type} (P : State → Prop) (error : string)
    (Q : A → State → Prop) (E : State → Prop) :
  (∀ st, P st → E st) → triple P (throw error) Q E.
Proof. intros H st HP. by apply H. Qed.

Lemma triple_weaken {A : Type} (P P' : State → Prop) (h : Handler A)
    (Q Q' : A → State → Prop) (E E' : State → Prop) :
  (∀ st, P' st → P st) → (∀ a st, Q a st → Q' a st) → (∀ st, E st → E' st) →
  triple P h Q E → triple P' h Q' E'.
Proof.
  intros HP HQ HE H st HP'. specialize (H st (HP st HP')).
  destruct (h st) as [st' [a | status body | error]]; auto.
Qed.

(** ** Lookups in the tables *)

Lemma findOne_application_Some rows i a :
  findOne_application rows i = Some a → a ∈ rows ∧ app_id a = i.
Proof.
  unfold findOne_application. intros H. apply find_some in H as [Hin Hid].
  apply list_elem_of_In in Hin. by apply bool_decide_eq_true in Hid.
Qed.

Lemma findOne_application_None rows i :
  findOne_application rows i = None ↔ i ∉ map app_id rows.
Proof.
  unfold findOne_application. induction rows as [|a rows IH]; simpl.
  - split; [intros _; apply not_elem_of_nil | done].
  - rewrite not_elem_of_cons. case_bool_decide; split; try done.
    + intros [? ?]. congruence.
    + intros ?. split; [congruence | by apply IH].
    + intros [_ ?]. by apply IH.
Qed.

Lemma findOne_application_unique rows a :
  NoDup (map app_id rows) → a ∈ rows →
  findOne_application rows (app_id a) = Some a.
Proof.
  unfold findOne_application. induction rows as [|b rows IH]; simpl.
  - intros _ H. by apply elem_of_nil in H.
  - intros Hnd Hin. apply NoDup_cons in Hnd as [Hb Hnd].
    apply elem_of_cons in Hin as [-> | Hin].
    + by rewrite bool_decide_eq_true_2.
    + case_bool_decide as Heq; [| by apply IH].
      exfalso. apply Hb. rewrite Heq. by apply list_elem_of_fmap_2.
Qed.

Lemma findOne_application_app rows i a row :
  findOne_application rows i = Some a →
  findOne_application (rows ++ [row]) i = Some a.
Proof.
  unfold findOne_application. induction rows as [|b rows IH]; simpl; [done |].
  by case_bool_decide.
Qed.

Lemma findOne_team_Some rows i t :
  findOne_team rows i = Some t → t ∈ rows ∧ team_id t = i.
Proof.
  unfold findOne_team. intros H. apply find_some in H as [Hin Hid].
  apply list_elem_of_In in Hin. by apply bool_decide_eq_true in Hid.
Qed.

Lemma findOne_team_unique rows t :
  NoDup (map team_id rows) → t ∈ rows → findOne_team rows (team_id t) = Some t.
Proof.
  unfold findOne_team. induction rows as [|b rows IH]; simpl.
  - intros _ H. by apply elem_of_nil in H.
  - intros Hnd Hin. apply NoDup_cons in Hnd as [Hb Hnd].
    apply elem_of_cons in Hin as [-> | Hin].
    + by rewrite bool_decide_eq_true_2.
    + case_bool_decide as Heq; [| by apply IH].
      exfalso. apply Hb. rewrite Heq. by apply list_elem_of_fmap_2.
Qed.

Lemma truthy_Some v s : truthy v = Some s ↔ v = Some s ∧ s ≠ "".
Proof.
  destruct v as [[|c r]|]; simpl; split; try done.
  - intros [? ?]. congruence.
  - intros [= <-]. done.
  - intros [? ?]. done.
  - intros [? ?]. done.
Qed.

Lemma truthy_None v : truthy v = None ↔ v = None ∨ v = Some "".
Proof.
  destruct v as [[|c r]|]; simpl; split; auto; try done.
  intros [? | ?]; done.
Qed.

(** ** The invariant is kept *)

Lemma invariant_initial : invariant initial_state.
Proof.
  split; simpl; try constructor. intros i a H. by rewrite lookup_empty in H.
Qed.

Lemma invariant_set_teams st rows :
  NoDup (map team_id rows) → invariant st → invariant (set_teams rows st).
Proof. intros Hrows [? ? ? ? ?]. by split. Qed.

Lemma invariant_set_indices st i : invariant st → invariant (set_indices i st).
Proof. intros [? ? ? ? ?]. by split. Qed.

Lemma invariant_drop_cache st c :
  c ⊆ cache st → invariant st → invariant (set_cache c st).
Proof.
  intros Hsub [? ? ? ? Hc]. split; simpl; try done.
  intros i a Hi. apply Hc. by eapply lookup_weaken.
Qed.

Lemma invariant_set_cache st i a :
  findOne_application (applications st) i = Some a →
  invariant st → invariant (set_cache (<[i := a]> (cache st)) st).
Proof.
  intros Hfind [? ? ? ? Hc]. split; simpl; try done.
  intros j b. rewrite lookup_insert. case_decide as Hij.
  - intros [= <-]. by rewrite <- Hij.
  - apply Hc.
Qed.

Lemma invariant_save st row :
  findOne_application (applications st) (app_id row) = None →
  one_owner row → app_teamId row ≠ Some "" →
  invariant st → invariant (set_applications (applications st ++ [row]) st).
Proof.
  intros Hfresh Hone Hteam [Hids Hown Htid Hteams Hc]. split; simpl; try done.
  - rewrite map_app. apply NoDup_app. split; [done |]. split.
    + intros i Hi Hrow. apply list_elem_of_singleton in Hrow as ->.
      by apply findOne_application_None in Hfresh.
    + apply NoDup_singleton.
  - apply Forall_app. split; [done |]. by apply Forall_singleton.
  - apply Forall_app. split; [done |]. by apply Forall_singleton.
  - intros i a Hi. apply findOne_application_app. by apply Hc.
Qed.

Lemma getById_ready w i :
  triple (ready w) (getById i)
    (λ r st, ready w st ∧ r = findOne_application (applications st) i)
    (ready w).
Proof.
  intros st [Hinv Hfresh]. unfold getById.
  destruct (cache st !! i) as [a|] eqn:Hc.
  - split; [done |]. symmetry. by apply Hinv.
  - destruct (findOne_application (applications st) i) as [a|] eqn:Hf; simpl.
    + split; [split |]; try done. by apply invariant_set_cache.
    + done.
Qed.

Lemma param_applicationId_ready w user i :
  triple (ready w) (param_applicationId user i) (λ _, ready w) (ready w).
Proof.
  unfold param_applicationId.
  apply (triple_bind _ _ _ (λ _, ready w)).
  { eapply triple_weaken; [| | | apply getById_ready]; simpl; eauto.
    by intros a st [? _]. }
  intros [a|]; [| by apply triple_fail].
  case_decide; [by apply triple_ret |].
  destruct (truthy (app_teamId a)) as [t|]; [| by apply triple_fail].
  apply (triple_bind _ _ _ (λ _, ready w)); [by apply triple_read |].
  intros [team|]; [| by apply triple_fail].
  destruct (includes _ _); [by apply triple_ret | by apply triple_fail].
Qed.

Lemma reads_only_triple {A : Type} (P : State → Prop) (h : Handler A) :
  reads_only h → triple P h (λ _, P) P.
Proof.
  intros H st HP. specialize (H st).
  destruct (h st) as [st' [a | status body | error]]; simpl in H; by subst.
Qed.

Lemma reads_only_bind {A B : Type} (m : Handler A) (f : A → Handler B) :
  reads_only m → (∀ a, reads_only (f a)) → reads_only (m ≫= f).
Proof.
  intros Hm Hf st. specialize (Hm st). unfold mbind, Handler_bind.
  destruct (m st) as [st' [a | status body | error]]; simpl in *; subst; try done.
  apply Hf.
Qed.

Lemma reads_only_ret {A : Type} (a : A) : reads_only (mret a : Handler A).
Proof. done. Qed.

Lemma reads_only_read {A : Type} (f : State → A) : reads_only (read f).
Proof. done. Qed.

Lemma reads_only_send {A : Type} status body : reads_only (@send A status body).
Proof. done. Qed.

Lemma reads_only_fail {A : Type} code message : reads_only (@fail A code message).
Proof. done. Qed.

Lemma reads_only_throw {A : Type} error : reads_only (@throw A error).
Proof. done. Qed.

Create HintDb handlers.
#[export] Hint Resolve reads_only_ret reads_only_read reads_only_send
  reads_only_fail reads_only_throw : handlers.

Section Properties.

Variable applicationSchema_validate : createBody → option string.
Variable decodeURI : string → option string.
Variable range_bound : string → option Z.
Variable text_match : string → string → string → bool.

Local Abbreviation router :=
  (router applicationSchema_validate decodeURI range_bound text_match).
Local Abbreviation step :=
  (step applicationSchema_validate decodeURI range_bound text_match).
Local Abbreviation reachable :=
  (reachable applicationSchema_validate decodeURI range_bound text_match).
Local Abbreviation post_create := (post_create applicationSchema_validate).
Local Abbreviation search := (search range_bound text_match).
Local Abbreviation matches := (matches range_bound text_match).
Local Abbreviation admits := (admits range_bound).
Local Abbreviation get_logs_search :=
  (get_logs_search decodeURI range_bound text_match).
Local Abbreviation get_logs_recent := (get_logs_recent range_bound text_match).
Local Abbreviation get_logs_history :=
  (get_logs_history range_bound text_match).

Lemma reads_only_search index size q : reads_only (search index size q).
Proof.
  intros st. unfold search.
  destruct (indices st !! index); [| done]. by destruct (admits _).
Qed.

Lemma reads_only_get_list w user :
  reads_only (get_list w user).
Proof. unfold get_list. repeat (apply reads_only_bind; [| intros ?]); auto with handlers. Qed.

Lemma reads_only_get_application application :
  reads_only (get_application application).
Proof. unfold get_application. auto with handlers. Qed.

Lemma reads_only_get_logs_any application :
  reads_only (get_logs_any application).
Proof.
  unfold get_logs_any, indices_exists.
  apply reads_only_bind; [auto with handlers |].
  intros []; simpl; auto with handlers.
Qed.

Lemma reads_only_get_logs_search application q :
  reads_only (get_logs_search application q).
Proof.
  unfold get_logs_search.
  destruct (truthy (content q)); [| auto with handlers].
  destruct (decodeURI s); [| auto with handlers].
  apply reads_only_bind; [apply reads_only_search | auto with handlers].
Qed.

Lemma reads_only_get_logs_recent application :
  reads_only (get_logs_recent application).
Proof.
  unfold get_logs_recent.
  apply reads_only_bind; [apply reads_only_search | auto with handlers].
Qed.

Lemma reads_only_get_logs_history application q :
  reads_only (get_logs_history application q).
Proof.
  unfold get_logs_history.
  destruct (truthy (before q)); [| auto with handlers].
  apply reads_only_bind; [apply reads_only_search | auto with handlers].
Qed.

Lemma post_create_invariant w user body :
  triple (ready w) (post_create w user body)
    (λ _ _, False) invariant.
Proof.
  unfold post_create.
  destruct (applicationSchema_validate body);
    [apply triple_fail; by intros st [? _] |].
  apply (triple_bind _ _ _ (λ p st, ready w st ∧ creation_owner user p)).
  - destruct (truthy (body_teamId body)) as [t|] eqn:Ht.
    + apply truthy_Some in Ht as [_ Ht].
      apply (triple_bind _ _ _ (λ _, ready w)); [by apply triple_read |].
      intros [team|]; [| apply triple_fail; by intros st [? _]].
      destruct (negb _); [apply triple_fail; by intros st [? _] |].
      apply triple_ret. intros st Hst. split; [done |]. left. by exists t.
    + apply triple_ret. intros st Hst. split; [done |]. by right.
  - intros [teamId ownerId] st [[Hinv Hfresh] Hp].
    assert (invariant (set_applications (applications st ++
      [mkApplication (generated_id w) (body_name body) (random_key w)
         teamId ownerId (now w) (now w)]) st)) as Hinv'.
    { apply invariant_save; simpl; try done.
      - destruct Hp as [(t & [= -> ->] & _) | [= -> ->]]; [right | left]; done.
      - destruct Hp as [(t & [= -> ->] & ?) | [= -> ->]]; congruence. }
    unfold mbind, Handler_bind, save, indices_create. simpl.
    destruct (backend_refuses w); [done |].
    destruct (indices st !! _); [done |]. simpl.
    by apply (invariant_set_indices _ _ Hinv').
Qed.

Lemma router_invariant w req :
  triple (ready w) (router w req) (λ _ _, False) invariant.
Proof.
  assert (∀ (h : Handler Empty_set), reads_only h →
    triple (ready w) h (λ _ _, False) invariant) as Hread.
  { intros h Hh.
    apply (triple_weaken (ready w) _ _ (λ _, ready w) _ (ready w));
      [done | by intros [] | by intros st [? _] | by apply reads_only_triple]. }
  assert (∀ user i (h : applicationEntity → Handler Empty_set),
    (∀ a, reads_only (h a)) →
    triple (ready w) (param_applicationId user i ≫= h) (λ _ _, False) invariant)
    as Hparam.
  { intros user i h Hh. apply (triple_bind _ _ _ (λ _, ready w)).
    - apply (triple_weaken (ready w) _ _ (λ _, ready w) _ (ready w));
        [done | done | by intros st [? _] | apply param_applicationId_ready].
    - intros a. by apply Hread. }
  unfold router.
  apply (triple_bind _ _ _ (λ _, ready w)).
  { unfold authenticate. destruct (req_user req);
      [by apply triple_ret | apply triple_fail; by intros st [? _]]. }
  intros user. destruct (req_route req).
  - apply Hread, reads_only_get_list.
  - apply post_create_invariant.
  - apply Hparam, reads_only_get_application.
  - apply Hparam. intros a.
    apply reads_only_bind; [apply reads_only_get_logs_any |].
    intros _. apply reads_only_get_logs_search.
  - apply Hparam. intros a.
    apply reads_only_bind; [apply reads_only_get_logs_any |].
    intros _. apply reads_only_get_logs_recent.
  - apply Hparam. intros a.
    apply reads_only_bind; [apply reads_only_get_logs_any |].
    intros _. apply reads_only_get_logs_history.
Qed.

Lemma step_invariant st st' :
  step st st' →
  invariant st → invariant st'.
Proof.
  intros [st0 w req Hfresh | st0 rows Hrows | st0 i | st0 c Hsub] Hinv.
  - pose proof (router_invariant w req st0 (conj Hinv Hfresh)) as H.
    by destruct (router w req st0) as [st1 [[] | status body | error]].
  - by apply invariant_set_teams.
  - by apply invariant_set_indices.
  - by apply invariant_drop_cache.
Qed.

Lemma reachable_invariant st : reachable st → invariant st.
Proof.
  revert st. apply rtc_ind_r.
  - apply invariant_initial.
  - intros y z _ Hstep Hy. by eapply step_invariant.
Qed.


(** ** The access decision *)

Lemma getById_outcome st i :
  invariant st →
  ∃ st', getById i st = (st', Next (findOne_application (applications st) i))
    ∧ applications st' = applications st
    ∧ teams st' = teams st
    ∧ indices st' = indices st.
Proof.
  intros Hinv. unfold getById.
  destruct (cache st !! i) as [a|] eqn:Hc.
  - apply Hinv in Hc. rewrite Hc. by exists st.
  - destruct (findOne_application (applications st) i) as [a|]; eauto.
Qed.

Lemma param_applicationId_frame st user i :
  let st' := (param_applicationId user i st).1 in
  applications st' = applications st
  ∧ teams st' = teams st
  ∧ indices st' = indices st.
Proof.
  unfold param_applicationId, mbind, Handler_bind, getById.
  destruct (cache st !! i) as [a|].
  - case_decide; [done |].
    destruct (truthy _); [| done]. simpl.
    destruct (findOne_team _ _); [| done]. by destruct (includes _ _).
  - destruct (findOne_application _ _) as [a|]; [| done].
    case_decide; [done |].
    destruct (truthy _); [| done]. simpl.
    destruct (findOne_team _ _); [| done]. by destruct (includes _ _).
Qed.

(** The outcome of [router.param] as a function of the two tables. *)
Lemma param_applicationId_outcome st user i :
  invariant st →
  (param_applicationId user i st).2 =
    match findOne_application (applications st) i with
    | None => Send 404 (envelope 404 "Unknown application")
    | Some a =>
        if decide (app_ownerId a = Some (user_id user)) then Next a
        else
          match truthy (app_teamId a) with
          | Some t =>
              match findOne_team (teams st) t with
              | Some team =>
                  if includes (memberIds team) (user_id user)
                  then Next a else forbidden
              | None => forbidden
              end
          | None => forbidden
          end
    end.
Proof.
  intros Hinv.
  destruct (getById_outcome st i Hinv) as (st' & Hget & _ & Hteams & _).
  unfold param_applicationId, mbind, Handler_bind. rewrite Hget.
  destruct (findOne_application (applications st) i) as [a|]; [| done].
  case_decide; [done |].
  destruct (truthy (app_teamId a)) as [t|]; [| done].
  simpl. rewrite Hteams.
  destruct (findOne_team (teams st) t) as [team|]; [| done].
  by destruct (includes _ _).
Qed.

Lemma includes_true l x : includes l x = true ↔ x ∈ l.
Proof. unfold includes. apply bool_decide_eq_true. Qed.

Lemma includes_false l x : includes l x = false ↔ x ∉ l.
Proof. unfold includes. apply bool_decide_eq_false. Qed.

(** ** The stages of [/create] *)

Lemma post_create_invalid w user body st message :
  applicationSchema_validate body = Some message →
  post_create w user body st = (st, Send 400 (envelope 400 message)).
Proof. intros H. unfold post_create. by rewrite H. Qed.

Lemma post_create_unknown_team w user body st t :
  applicationSchema_validate body = None →
  truthy (body_teamId body) = Some t →
  findOne_team (teams st) t = None →
  post_create w user body st = (st, Send 400 (envelope 400 "Unknown team")).
Proof.
  intros Hv Ht Hteam. unfold post_create. rewrite Hv, Ht.
  unfold mbind, Handler_bind. simpl. by rewrite Hteam.
Qed.

Lemma post_create_not_member w user body st t team :
  applicationSchema_validate body = None →
  truthy (body_teamId body) = Some t →
  findOne_team (teams st) t = Some team →
  includes (memberIds team) (user_id user) = false →
  post_create w user body st =
    (st, Send 403 (envelope 403 "You don't have access to this team")).
Proof.
  intros Hv Ht Hteam Hmem. unfold post_create. rewrite Hv, Ht.
  unfold mbind, Handler_bind. simpl. by rewrite Hteam, Hmem.
Qed.

Lemma post_create_team w user body st t team :
  applicationSchema_validate body = None →
  truthy (body_teamId body) = Some t →
  findOne_team (teams st) t = Some team →
  includes (memberIds team) (user_id user) = true →
  let row := created_row w body (Some t) None in
  post_create w user body st =
    provision w row (set_applications (applications st ++ [row]) st).
Proof.
  intros Hv Ht Hteam Hmem. unfold post_create. rewrite Hv, Ht.
  unfold mbind, Handler_bind. simpl. by rewrite Hteam, Hmem.
Qed.

Lemma post_create_personal w user body st :
  applicationSchema_validate body = None →
  truthy (body_teamId body) = None →
  let row := created_row w body None (Some (user_id user)) in
  post_create w user body st =
    provision w row (set_applications (applications st ++ [row]) st).
Proof.
  intros Hv Ht. unfold post_create. by rewrite Hv, Ht.
Qed.

Lemma provision_applications w row st :
  applications (provision w row st).1 = applications st.
Proof.
  unfold provision, mbind, Handler_bind, indices_create.
  destruct (backend_refuses w); [done |]. by destruct (indices st !! _).
Qed.

(** ** The listing *)

Lemma same_id_same_row rows a b :
  NoDup (map app_id rows) → a ∈ rows → b ∈ rows → app_id a = app_id b → a = b.
Proof.
  intros Hnd Ha Hb Hid.
  pose proof (findOne_application_unique _ _ Hnd Ha) as Hfa.
  pose proof (findOne_application_unique _ _ Hnd Hb) as Hfb.
  rewrite Hid in Hfa. congruence.
Qed.

Lemma elem_of_flat_map {A B : Type} (f : A → list B) (l : list A) (y : B) :
  y ∈ flat_map f l ↔ ∃ x, x ∈ l ∧ y ∈ f x.
Proof.
  setoid_rewrite list_elem_of_In. apply in_flat_map.
Qed.

Lemma NoDup_team_applications rows (ts : list applicationTeam) :
  NoDup rows → NoDup (map team_id ts) →
  NoDup (flat_map (λ team, find_by_team rows (team_id team)) ts).
Proof.
  intros Hrows. induction ts as [|t ts IH]; simpl; [constructor |].
  intros [Ht Hts]%NoDup_cons. apply NoDup_app. split; [| split].
  - by apply NoDup_filter.
  - intros a [Ha _]%list_elem_of_filter (t' & Ht' & [Ha' _]%list_elem_of_filter)%elem_of_flat_map.
    apply Ht. assert (team_id t = team_id t') as -> by congruence.
    by apply list_elem_of_fmap_2.
  - by apply IH.
Qed.

Lemma summary_id a b : summary a = summary b → app_id a = app_id b.
Proof. unfold summary. congruence. Qed.

Lemma listed_visible w st user a :
  completion w (teams_of_member (teams st) (user_id user))
    ≡ₚ teams_of_member (teams st) (user_id user) →
  a ∈ listed w st user ↔ a ∈ applications st ∧ visible st user a.
Proof.
  intros Hperm. unfold listed, visible.
  rewrite elem_of_app, elem_of_flat_map. unfold find_by_owner, find_by_team.
  rewrite list_elem_of_filter. setoid_rewrite Hperm.
  unfold teams_of_member. split.
  - intros [[Hown Hin] | (team & [Hmem Hteam]%list_elem_of_filter & [Ht Hin]%list_elem_of_filter)].
    + split; [done | by left].
    + split; [done | right]. by exists team.
  - intros [Hin [Hown | (team & Hteam & Ht & Hmem)]]; [by left | right].
    exists team. by rewrite !list_elem_of_filter.
Qed.

Lemma listed_NoDup w st user :
  invariant st →
  completion w (teams_of_member (teams st) (user_id user))
    ≡ₚ teams_of_member (teams st) (user_id user) →
  NoDup (listed w st user).
Proof.
  intros Hinv Hperm. unfold listed.
  assert (NoDup (applications st)) as Hrows
    by (eapply NoDup_fmap_1, inv_ids; done).
  apply NoDup_app. split; [| split].
  - by apply NoDup_filter.
  - intros a [Hown Hin]%list_elem_of_filter
      (team & _ & [Ht _]%list_elem_of_filter)%elem_of_flat_map.
    pose proof (inv_owner _ Hinv) as Hall. rewrite Forall_forall in Hall.
    destruct (Hall a Hin) as [[_ Hnone] | [Hnone _]]; congruence.
  - apply NoDup_team_applications; [done |].
    rewrite Hperm. unfold teams_of_member.
    eapply sublist_NoDup; [apply (inv_teams _ Hinv) |].
    apply (fmap_sublist team_id), sublist_filter.
Qed.

(** ** The log routes *)

Lemma get_field_set_field_ne k k' v fields :
  k ≠ k' → get_field k (set_field k' v fields) = get_field k fields.
Proof.
  intros Hne. induction fields as [|[k0 v0] fields IH]; simpl.
  - by rewrite decide_False by done.
  - destruct (decide (k0 = k')) as [-> |]; simpl.
    + by rewrite !decide_False by done.
    + by rewrite IH.
Qed.

Lemma get_logs_any_missing a st :
  indices st !! index_of a = None →
  get_logs_any a st = (st, Send 200 (JArr [])).
Proof.
  intros H. unfold get_logs_any, indices_exists, mbind, Handler_bind, read.
  rewrite H. by rewrite bool_decide_eq_false_2 by (by intros [? ?]).
Qed.

Lemma get_logs_any_present a st :
  is_Some (indices st !! index_of a) →
  get_logs_any a st = (st, Next tt).
Proof.
  intros H. unfold get_logs_any, indices_exists, mbind, Handler_bind, read.
  by rewrite bool_decide_eq_true_2.
Qed.

(** After a granted access the log routes run the index check and then
    their handler, on indices that the access check has not touched. *)
Lemma router_logs_search w user i q st a :
  (param_applicationId user i st).2 = Next a →
  ∃ st1, indices st1 = indices st
    ∧ router w (mkRequest (Some user) (GET_logs_search i q)) st
      = (get_logs_any a ≫= λ _, get_logs_search a q) st1.
Proof.
  intros H. exists (param_applicationId user i st).1.
  split; [apply param_applicationId_frame |].
  unfold router, mbind, Handler_bind. simpl.
  destruct (param_applicationId user i st) as [st1 r]. simpl in H. by subst r.
Qed.

Lemma router_logs_history w user i q st a :
  (param_applicationId user i st).2 = Next a →
  ∃ st1, indices st1 = indices st
    ∧ router w (mkRequest (Some user) (GET_logs_history i q)) st
      = (get_logs_any a ≫= λ _, get_logs_history a q) st1.
Proof.
  intros H. exists (param_applicationId user i st).1.
  split; [apply param_applicationId_frame |].
  unfold router, mbind, Handler_bind. simpl.
  destruct (param_applicationId user i st) as [st1 r]. simpl in H. by subst r.
Qed.

(** Every hit of a search satisfies the query. *)
Lemma search_hits index size q st st' hits :
  search index size q st = (st', Next hits) →
  ∀ h, h ∈ hits → matches q (hit_source h) = true.
Proof.
  unfold search. destruct (indices st !! index) as [documents|]; [| done].
  destruct (admits _); [| done]. intros [= _ <-] h Hin.
  apply subseteq_take in Hin. rewrite merge_sort_Permutation in Hin.
  by apply list_elem_of_filter in Hin as [? _].
Qed.

(** A search answers when the index is there and the query is accepted. *)
Lemma search_answers index size q st documents :
  indices st !! index = Some documents → admits q = true →
  ∃ hits, search index size q st = (st, Next hits).
Proof. intros Hi Hq. unfold search. rewrite Hi, Hq. eauto. Qed.

Lemma search_rejects index size q st st' status body :
  search index size q st ≠ (st', Send status body).
Proof.
  unfold search. destruct (indices st !! index); [| done].
  by destruct (admits _).
Qed.

(** C1.  Access resolution.  In every reachable state, for every
    application identifier and authenticated user: if no application has
    that identifier the request ends with 404; if the application's
    [ownerId] is the user's id the request is granted ([next()] with the
    application attached); otherwise, if its [teamId] is set, that team
    exists and its [memberIds] hold the user's id, the request is granted;
    in every other case the request ends with 403. *)
Theorem access_resolution st user applicationId :
  reachable st →
  let outcome := (param_applicationId user applicationId st).2 in
  ((∀ a, a ∈ applications st → app_id a ≠ applicationId) →
     outcome = Send 404 (envelope 404 "Unknown application"))
  ∧ (∀ a, a ∈ applications st → app_id a = applicationId →
       (app_ownerId a = Some (user_id user) → outcome = Next a)
       ∧ (app_ownerId a ≠ Some (user_id user) →
          ∀ t team,
            app_teamId a = Some t →
            team ∈ teams st → team_id team = t →
            user_id user ∈ memberIds team →
            outcome = Next a)
       ∧ (app_ownerId a ≠ Some (user_id user) →
          (¬ ∃ t team,
              app_teamId a = Some t ∧ team ∈ teams st ∧ team_id team = t
              ∧ user_id user ∈ memberIds team) →
          outcome = Send 403 (envelope 403 "You have no access to this application"))).
Proof.
  intros Hreach outcome. apply reachable_invariant in Hreach as Hinv.
  subst outcome. rewrite (param_applicationId_outcome _ _ _ Hinv).
  split.
  - intros Hnone.
    destruct (findOne_application _ _) as [a|] eqn:Hf; [| done].
    apply findOne_application_Some in Hf as [Hin Hid]. by destruct (Hnone a).
  - intros a Hin Hid. subst applicationId.
    rewrite (findOne_application_unique _ _ (inv_ids _ Hinv) Hin).
    split; [| split].
    + intros Hown. by rewrite decide_True.
    + intros Hown t team Ht Hteam Htid Hmem. rewrite decide_False by done.
      assert (truthy (app_teamId a) = Some t) as ->.
      { apply truthy_Some. split; [done |]. intros ->.
        pose proof (inv_teamId _ Hinv) as Hall.
        rewrite Forall_forall in Hall. by apply (Hall a Hin). }
      subst t. rewrite (findOne_team_unique _ _ (inv_teams _ Hinv) Hteam).
      by rewrite (proj2 (includes_true _ _) Hmem).
    + intros Hown Hno. rewrite decide_False by done.
      destruct (truthy (app_teamId a)) as [t|] eqn:Ht; [| done].
      apply truthy_Some in Ht as [Ht _].
      destruct (findOne_team (teams st) t) as [team|] eqn:Hteam; [| done].
      apply findOne_team_Some in Hteam as [Hteam Htid].
      destruct (includes _ _) eqn:Hmem; [| done].
      apply includes_true in Hmem. exfalso. apply Hno. by exists t, team.
Qed.

(** C2.  No stale membership.  The decision is a function of the two tables
    as they are when the request is served: two reachable states with the
    same application and team tables give the same outcome, whatever their
    caches hold.  So when the team table has been rewritten and the team
    owning the application no longer lists the user, the request ends with
    403, also when an earlier grant left the application in the cache. *)
Theorem membership_is_current :
  (∀ st1 st2 user applicationId,
     reachable st1 → reachable st2 →
     applications st1 = applications st2 → teams st1 = teams st2 →
     (param_applicationId user applicationId st1).2
     = (param_applicationId user applicationId st2).2)
  ∧ (∀ st user a t rows,
       reachable st →
       a ∈ applications st → app_teamId a = Some t →
       NoDup (map team_id rows) →
       (∀ team, team ∈ rows → team_id team = t → user_id user ∉ memberIds team) →
       (param_applicationId user (app_id a) (set_teams rows st)).2
       = Send 403 (envelope 403 "You have no access to this application")).
Proof.
  split.
  - intros st1 st2 user i H1 H2 Happs Hteams.
    apply reachable_invariant in H1, H2.
    rewrite !param_applicationId_outcome by done.
    by rewrite Happs, Hteams.
  - intros st user a t rows Hreach Hin Ht Hrows Hout.
    assert (reachable (set_teams rows st)) as Hreach'.
    { eapply rtc_r; [exact Hreach | by apply step_teams]. }
    apply reachable_invariant in Hreach as Hinv.
    apply reachable_invariant in Hreach' as Hinv'.
    rewrite (param_applicationId_outcome _ _ _ Hinv'). simpl.
    rewrite (findOne_application_unique _ _ (inv_ids _ Hinv) Hin).
    pose proof (inv_owner _ Hinv) as Hall. rewrite Forall_forall in Hall.
    rewrite decide_False
      by (destruct (Hall a Hin) as [[_ Hnone] | [Hnone _]]; congruence).
    destruct (truthy (app_teamId a)) as [t'|] eqn:Ht'; [| done].
    apply truthy_Some in Ht' as [Ht' _].
    rewrite Ht in Ht'. injection Ht' as <-.
    destruct (findOne_team rows t) as [team|] eqn:Hteam; [| done].
    apply findOne_team_Some in Hteam as [Hteam Htid].
    by rewrite (proj2 (includes_false _ _) (Hout team Hteam Htid)).
Qed.

(** C3.  The postconditions of [/create].  The handler validates the body
    before anything else; a body the schema refuses is answered 400 and
    nothing is created.  For every authenticated user and every create call
    whose body the schema accepts: without a [teamId] the call persists a
    record whose [ownerId] is the creator's id; with a [teamId] whose team
    lists the creator it persists a record with that [teamId] and a null
    [ownerId]; with a [teamId] whose team does not list the creator it ends
    with 403 and creates no record; with a [teamId] that names no team it
    ends with 400 and creates no record.  The handler tells the two kinds of
    call apart by [if (body.teamId)]. *)
Theorem create_postconditions st w user body :
  reachable st →
  let st' := (post_create w user body st).1 in
  let outcome := (post_create w user body st).2 in
  (∀ message,
     applicationSchema_validate body = Some message →
     outcome = Send 400 (envelope 400 message) ∧ st' = st)
  ∧ (applicationSchema_validate body = None →
     (truthy (body_teamId body) = None →
        ∃ row, applications st' = (applications st ++ [row])%list
          ∧ app_ownerId row = Some (user_id user) ∧ app_teamId row = None)
     ∧ (∀ t, truthy (body_teamId body) = Some t →
          (∀ team, team ∈ teams st → team_id team = t →
             user_id user ∈ memberIds team →
             ∃ row, applications st' = (applications st ++ [row])%list
               ∧ app_teamId row = Some t ∧ app_ownerId row = None)
          ∧ (∀ team, team ∈ teams st → team_id team = t →
               user_id user ∉ memberIds team →
               outcome
               = Send 403 (envelope 403 "You don't have access to this team")
               ∧ st' = st)
          ∧ ((∀ team, team ∈ teams st → team_id team ≠ t) →
               outcome = Send 400 (envelope 400 "Unknown team") ∧ st' = st))).
Proof.
  intros Hreach st' outcome. subst st' outcome.
  apply reachable_invariant in Hreach as Hinv.
  split; [intros message Hrefused; by rewrite (post_create_invalid _ _ _ _ _ Hrefused) |].
  intros Hvalid.
  split; [| intros t Ht; split; [| split]].
  - intros Ht. rewrite (post_create_personal _ _ _ _ Hvalid Ht).
    rewrite provision_applications. simpl. eauto.
  - intros team Hteam <- Hmem.
    rewrite (post_create_team w user body st _ team Hvalid Ht);
      [| by apply findOne_team_unique, Hteam; apply Hinv | by apply includes_true].
    rewrite provision_applications. simpl. eauto.
  - intros team Hteam <- Hmem.
    rewrite (post_create_not_member w user body st _ team Hvalid Ht);
      [done | by apply findOne_team_unique, Hteam; apply Hinv
      | by apply includes_false].
  - intros Hnone.
    rewrite (post_create_unknown_team w user body st t Hvalid Ht); [done |].
    destruct (findOne_team (teams st) t) as [team|] eqn:Hteam; [| done].
    apply findOne_team_Some in Hteam as [Hteam Htid]. by destruct (Hnone team).
Qed.

(** C4.  Every row that the creation adds to the application table has
    exactly one of [ownerId] and [teamId] non-null, and so has every
    application of every reachable state, the creation being the only
    operation that writes the table. *)
Theorem exactly_one_owner :
  (∀ st w user body row,
     row ∈ applications (post_create w user body st).1 →
     row ∈ applications st ∨ one_owner row)
  ∧ (∀ st, reachable st → ∀ a, a ∈ applications st → one_owner a).
Proof.
  split.
  - intros st w user body row.
    destruct (applicationSchema_validate body) as [message|] eqn:Hvalid.
    { rewrite (post_create_invalid _ _ _ _ _ Hvalid). auto. }
    destruct (truthy (body_teamId body)) as [t|] eqn:Ht.
    + destruct (findOne_team (teams st) t) as [team|] eqn:Hteam.
      * destruct (includes (memberIds team) (user_id user)) eqn:Hmem.
        -- rewrite (post_create_team _ _ _ _ _ _ Hvalid Ht Hteam Hmem).
           rewrite provision_applications. simpl.
           intros [Hrow | Hrow]%elem_of_app; [by left | right].
           apply list_elem_of_singleton in Hrow as ->. right. simpl. eauto.
        -- rewrite (post_create_not_member _ _ _ _ _ _ Hvalid Ht Hteam Hmem).
           auto.
      * rewrite (post_create_unknown_team _ _ _ _ _ Hvalid Ht Hteam). auto.
    + rewrite (post_create_personal _ _ _ _ Hvalid Ht).
      rewrite provision_applications. simpl.
      intros [Hrow | Hrow]%elem_of_app; [by left | right].
      apply list_elem_of_singleton in Hrow as ->. left. simpl. eauto.
  - intros st Hreach a Hin. apply reachable_invariant in Hreach as Hinv.
    pose proof (inv_owner _ Hinv) as Hall. rewrite Forall_forall in Hall.
    by apply Hall.
Qed.

(** C9, as amended.  The provisioning of the index follows the saving of
    the record and does not undo it: for every create call that passes
    validation and authorization, if the creation of the log index fails,
    the application record is in the table all the same — but the handler
    stops at the rejected call, so the request ends without the response
    that carries the created application. *)
Theorem provisioning_failure st w user body :
  applicationSchema_validate body = None →
  may_create st user body →
  backend_refuses w = true
    ∨ is_Some (indices st !! ("syslog-" +:+ generated_id w)) →
  let st' := (post_create w user body st).1 in
  let outcome := (post_create w user body st).2 in
  (∃ row, applications st' = (applications st ++ [row])%list
     ∧ app_id row = generated_id w)
  ∧ indices st' = indices st
  ∧ ∃ error, outcome = Reject error.
Proof.
  intros Hvalid Hmay Hfails st' outcome. subst st' outcome.
  assert (∃ row, app_id row = generated_id w ∧ post_create w user body st =
    provision w row (set_applications (applications st ++ [row]) st))
    as (row & Hid & ->).
  { unfold may_create in Hmay.
    destruct (truthy (body_teamId body)) as [t|] eqn:Ht.
    - destruct Hmay as (team & Hteam & Hmem%includes_true).
      eexists. split; [| by eapply post_create_team]. done.
    - eexists. split; [| by eapply post_create_personal]. done. }
  rewrite provision_applications. simpl. split; [eauto |].
  unfold provision, mbind, Handler_bind, indices_create, index_of. simpl.
  rewrite Hid.
  destruct Hfails as [-> | [docs ->]]; [by eauto |].
  destruct (backend_refuses w); by eauto.
Qed.

(** C5.  In every reachable state, for every user, whatever the order in
    which the lookups of the user's teams complete, [/list] answers with the
    summaries of exactly the applications the user owns and the
    applications of the teams that list the user, each of them once; every
    summary has the fields [id], [name], [teamId], [ownerId], [createdAt]
    and [updatedAt], and no field [key], and each field holds the value the
    application has for it ([null] for a column that is null). *)
Theorem listing st w user :
  reachable st →
  completion w (teams_of_member (teams st) (user_id user))
    ≡ₚ teams_of_member (teams st) (user_id user) →
  ∃ l,
    router w (mkRequest (Some user) GET_list) st
      = (st, Send 200 (JArr (map summary l)))
    ∧ (∀ a, a ∈ l ↔ a ∈ applications st ∧ visible st user a)
    ∧ NoDup l
    ∧ NoDup (map summary l)
    ∧ (∀ entry, entry ∈ map summary l →
         ∃ fields, entry = JObj fields
           ∧ map fst fields
             = ["id"; "name"; "teamId"; "ownerId"; "createdAt"; "updatedAt"]
           ∧ "key" ∉ map fst fields)
    ∧ map summary l
      = map (λ a,
          JObj [("id", JStr (app_id a));
                ("name", from_option JStr JNull (app_name a));
                ("teamId", from_option JStr JNull (app_teamId a));
                ("ownerId", from_option JStr JNull (app_ownerId a));
                ("createdAt", JNum (app_createdAt a));
                ("updatedAt", JNum (app_updatedAt a))]) l.
Proof.
  intros Hreach Hperm. apply reachable_invariant in Hreach as Hinv.
  exists (listed w st user). split; [done |].
  pose proof (listed_NoDup w st user Hinv Hperm) as Hnd.
  split; [| split; [| split; [| split]]].
  - intros a. by apply listed_visible.
  - done.
  - apply NoDup_fmap_2_strong; [| done].
    intros a b [Ha _]%listed_visible [Hb _]%listed_visible Hab; try done.
    eapply same_id_same_row; [apply (inv_ids _ Hinv) | done | done |].
    by apply summary_id.
  - intros entry (a & -> & _)%list_elem_of_fmap.
    eexists. split; [reflexivity |]. split; [done |].
    simpl. rewrite !not_elem_of_cons. repeat split; try done.
    apply not_elem_of_nil.
  - apply map_ext. intros a. unfold summary, json_opt.
    by destruct (app_name a), (app_teamId a), (app_ownerId a).
Qed.

(** C6, as amended.  For every authorized request to the search endpoint
    with no [content] parameter, and for every authorized request to the
    history endpoint with no [before] parameter, against a tenant whose log
    index exists, the response is a 400 whose message names the missing
    parameter. *)
Theorem missing_parameter_400 st w user applicationId q a :
  (param_applicationId user applicationId st).2 = Next a →
  is_Some (indices st !! index_of a) →
  (truthy (content q) = None →
     (router w (mkRequest (Some user) (GET_logs_search applicationId q)) st).2
     = Send 400 (envelope 400 (missing_parameter "content")))
  ∧ (truthy (before q) = None →
       (router w (mkRequest (Some user) (GET_logs_history applicationId q)) st).2
       = Send 400 (envelope 400 (missing_parameter "before"))).
Proof.
  intros Hgrant Hindex. split; intros Hq.
  - destruct (router_logs_search w user applicationId q st a Hgrant)
      as (st1 & Hind & ->).
    unfold mbind, Handler_bind.
    rewrite get_logs_any_present by by rewrite Hind.
    unfold get_logs_search. by rewrite Hq.
  - destruct (router_logs_history w user applicationId q st a Hgrant)
      as (st1 & Hind & ->).
    unfold mbind, Handler_bind.
    rewrite get_logs_any_present by by rewrite Hind.
    unfold get_logs_history. by rewrite Hq.
Qed.

(** C7.  For every authorized search or history request against a tenant
    whose log index does not exist, the response is the empty array, with
    status 200. *)
Theorem missing_index_empty st w user applicationId q a :
  (param_applicationId user applicationId st).2 = Next a →
  indices st !! index_of a = None →
  (router w (mkRequest (Some user) (GET_logs_search applicationId q)) st).2
    = Send 200 (JArr [])
  ∧ (router w (mkRequest (Some user) (GET_logs_history applicationId q)) st).2
    = Send 200 (JArr []).
Proof.
  intros Hgrant Hindex. split.
  - destruct (router_logs_search w user applicationId q st a Hgrant)
      as (st1 & Hind & ->).
    unfold mbind, Handler_bind.
    by rewrite get_logs_any_missing by by rewrite Hind.
  - destruct (router_logs_history w user applicationId q st a Hgrant)
      as (st1 & Hind & ->).
    unfold mbind, Handler_bind.
    by rewrite get_logs_any_missing by by rewrite Hind.
Qed.

(** C10.  The index check runs before the parameters are looked at: for
    every authorized request against a tenant whose log index does not
    exist, the search endpoint without [content] and the history endpoint
    without [before] answer the empty array with status 200, not the 400
    of the missing parameter. *)
Theorem index_check_first st w user applicationId q a :
  (param_applicationId user applicationId st).2 = Next a →
  indices st !! index_of a = None →
  (truthy (content q) = None →
     let outcome :=
       (router w (mkRequest (Some user) (GET_logs_search applicationId q)) st).2 in
     outcome = Send 200 (JArr [])
     ∧ outcome ≠ Send 400 (envelope 400 (missing_parameter "content")))
  ∧ (truthy (before q) = None →
       let outcome :=
         (router w (mkRequest (Some user) (GET_logs_history applicationId q)) st).2 in
       outcome = Send 200 (JArr [])
       ∧ outcome ≠ Send 400 (envelope 400 (missing_parameter "before"))).
Proof.
  intros Hgrant Hindex. split; intros _ outcome; subst outcome.
  - destruct (router_logs_search w user applicationId q st a Hgrant)
      as (st1 & Hind & ->).
    unfold mbind, Handler_bind.
    by rewrite get_logs_any_missing by by rewrite Hind.
  - destruct (router_logs_history w user applicationId q st a Hgrant)
      as (st1 & Hind & ->).
    unfold mbind, Handler_bind.
    by rewrite get_logs_any_missing by by rewrite Hind.
Qed.

(** C8.  For every authorized history call with [before = X]: the call
    answers whenever the backend accepts [X] as a bound, and whenever it
    answers, the answer is an array in which every record has an [id]
    strictly below [X] and, when a [content] is supplied as well, a
    [message] that also satisfies the full-text match on [content] with
    [minimum_should_match] at 80%. *)
Theorem history_before st w user applicationId q a X :
  (param_applicationId user applicationId st).2 = Next a →
  truthy (before q) = Some X →
  let outcome :=
    (router w (mkRequest (Some user) (GET_logs_history applicationId q)) st).2 in
  (is_Some (range_bound X) → ∃ records, outcome = Send 200 (JArr records))
  ∧ (∀ status body, outcome = Send status body →
       ∃ records, status = 200%Z ∧ body = JArr records
         ∧ ∀ r, r ∈ records →
             ∃ fields, r = JObj fields
               ∧ (∃ i x, get_field "id" fields = Some (JNum i)
                    ∧ range_bound X = Some x ∧ (i < x)%Z)
               ∧ (∀ c, truthy (content q) = Some c →
                    ∃ m, get_field "message" fields = Some (JStr m)
                      ∧ text_match c "80%" m = true)).
Proof.
  intros Hgrant HX outcome. subst outcome.
  destruct (router_logs_history w user applicationId q st a Hgrant)
    as (st1 & Hind & ->).
  unfold mbind, Handler_bind.
  destruct (indices st1 !! index_of a) as [documents|] eqn:Hi.
  2: { rewrite get_logs_any_missing by done. simpl. split; [by eauto |].
       intros status body [= <- <-]. exists []. repeat split; try done.
       intros r Hr. by apply elem_of_nil in Hr. }
  rewrite get_logs_any_present by by rewrite Hi.
  unfold get_logs_history. rewrite HX. unfold mbind, Handler_bind.
  split.
  - intros HxS.
    edestruct (search_answers (index_of a) 100) as [hits ->];
      [exact Hi | | by eauto].
    simpl. rewrite bool_decide_eq_true_2 by done.
    by destruct (truthy (content q)).
  - destruct (search _ _ _ st1) as [st2 [hits | status' body' | error]] eqn:Hs;
      [| by apply search_rejects in Hs | done].
    intros status body [= <- <-]. eexists. repeat split.
    intros r (h & -> & Hh)%list_elem_of_fmap.
    pose proof (search_hits _ _ _ _ _ _ Hs h Hh) as Hm. simpl in Hm.
    apply andb_true_iff in Hm as [Hrange Hmust].
    eexists. split; [reflexivity |].
    rewrite !get_field_set_field_ne by done. split.
    + destruct (get_field "id" (hit_source h)) as [[| | i | | |]|]; try done.
      destruct (range_bound X) as [x|]; [| done].
      exists i, x. repeat split. by apply bool_decide_eq_true in Hrange.
    + intros c Hc. rewrite Hc in Hmust. simpl in Hmust.
      destruct (get_field "message" (hit_source h)) as [[| | | m | |]|]; try done.
      by exists m.
Qed.

(** ** Further properties of the router *)

(** *** The order of the results *)

Global Instance time_desc_total : Total time_desc.
Proof.
  intros a b. unfold time_desc.
  destruct (time_of a), (time_of b); try tauto. lia.
Qed.

Global Instance time_desc_transitive : Transitive time_desc.
Proof.
  intros a b c. unfold time_desc.
  destruct (time_of a), (time_of b), (time_of c); try tauto. lia.
Qed.

Lemma newest_take_sort size (l : list searchHit) :
  newest size l (take size (merge_sort time_desc l)).
Proof.
  pose proof (Sorted_merge_sort time_desc l) as Hsorted.
  apply (Sorted_StronglySorted time_desc) in Hsorted.
  rewrite <- (take_drop size (merge_sort time_desc l)) in Hsorted.
  apply StronglySorted_app in Hsorted as (Hcross & Htake & _).
  exists (drop size (merge_sort time_desc l)).
  split; [by rewrite take_drop, merge_sort_Permutation |].
  split; [done |]. split; [done |].
  rewrite length_take. split; [lia |].
  intros Hshort. apply drop_ge. lia.
Qed.

(** What [esClient.search] gives: the newest documents of the index that
    satisfy the query, and an unchanged state. *)
Lemma search_newest index size q st st' hits :
  search index size q st = (st', Next hits) →
  st' = st
  ∧ ∃ documents,
      indices st !! index = Some documents
      ∧ newest size
          (filter (λ d, matches q (hit_source d) = true) documents) hits.
Proof.
  unfold search. destruct (indices st !! index) as [documents|]; [| done].
  destruct (admits _); [| done]. intros [= <- <-].
  split; [done |]. exists documents. split; [done |]. apply newest_take_sort.
Qed.

Lemma filter_all {A : Type} (P : A → Prop) `{!∀ x, Decision (P x)} (l : list A) :
  (∀ x, P x) → filter P l = l.
Proof.
  intros HP. induction l as [|x l IH]; [done |].
  by rewrite filter_cons_True, IH.
Qed.

Lemma search_present index size q st documents :
  indices st !! index = Some documents → admits q = true →
  ∃ hits,
    search index size q st = (st, Next hits)
    ∧ newest size
        (filter (λ d, matches q (hit_source d) = true) documents) hits.
Proof.
  intros Hi Hq. unfold search. rewrite Hi, Hq.
  eexists. split; [reflexivity |]. apply newest_take_sort.
Qed.

Lemma router_logs_recent w user i st a :
  (param_applicationId user i st).2 = Next a →
  ∃ st1, indices st1 = indices st
    ∧ router w (mkRequest (Some user) (GET_logs_recent i)) st
      = (get_logs_any a ≫= λ _, get_logs_recent a) st1.
Proof.
  intros H. exists (param_applicationId user i st).1.
  split; [apply param_applicationId_frame |].
  unfold router, mbind, Handler_bind. simpl.
  destruct (param_applicationId user i st) as [st1 r]. simpl in H. by subst r.
Qed.

(** X1.  [/logs/recent]: for a granted request on a tenant whose index
    exists, the answer is always a 200 with the 75 newest documents of that
    index, newest first, each with its [_id] written in. *)
Theorem recent_page st w user applicationId a documents :
  (param_applicationId user applicationId st).2 = Next a →
  indices st !! index_of a = Some documents →
  ∃ hits,
    (router w (mkRequest (Some user) (GET_logs_recent applicationId)) st).2
    = Send 200 (JArr (map with_id hits))
    ∧ newest 75 documents hits.
Proof.
  intros Hgrant Hdocs.
  destruct (router_logs_recent w user applicationId st a Hgrant)
    as (st1 & Hind & ->).
  unfold mbind, Handler_bind.
  rewrite get_logs_any_present by (rewrite Hind, Hdocs; eauto).
  unfold get_logs_recent, mbind, Handler_bind.
  destruct (search_present (index_of a) 75 match_all st1 documents)
    as (hits & -> & Hnewest); [by rewrite Hind | done |].
  exists hits. split; [done |].
  simpl in Hnewest. by rewrite filter_all in Hnewest.
Qed.

(** X2.  [/logs/search] with a [content]: for a granted request on a tenant
    whose index exists, a [content] that [decodeURI] refuses ends the
    handler without a response; otherwise the answer is a 200 with the 100
    newest documents whose [message] matches the decoded [content] with
    [minimum_should_match] at 80%, newest first. *)
Theorem search_page st w user applicationId q a documents c :
  (param_applicationId user applicationId st).2 = Next a →
  indices st !! index_of a = Some documents →
  truthy (content q) = Some c →
  let outcome :=
    (router w (mkRequest (Some user) (GET_logs_search applicationId q)) st).2 in
  match decodeURI c with
  | None => outcome = Reject "URIError"
  | Some text =>
      ∃ hits,
        outcome = Send 200 (JArr (map with_id hits))
        ∧ newest 100
            (filter (λ d, matches (match_text "message" text "80%")
                            (hit_source d) = true) documents) hits
  end.
Proof.
  intros Hgrant Hdocs Hc outcome. subst outcome.
  destruct (router_logs_search w user applicationId q st a Hgrant)
    as (st1 & Hind & ->).
  unfold mbind, Handler_bind.
  rewrite get_logs_any_present by (rewrite Hind, Hdocs; eauto).
  unfold get_logs_search. rewrite Hc.
  destruct (decodeURI c) as [text|]; [| done].
  unfold mbind, Handler_bind.
  destruct (search_present (index_of a) 100 (match_text "message" text "80%")
    st1 documents) as (hits & -> & Hnewest); [by rewrite Hind | done |].
  by exists hits.
Qed.

(** X3.  [/logs/history]: for a granted request on a tenant whose index
    exists, with a [before] that the backend reads as the number [x], the
    answer is a 200 with the 100 newest documents whose [id] is below [x]
    (and whose [message] matches [content], taken as it is, when one is
    given), newest first.  A page of fewer than 100 records therefore holds
    every such document: it is the last page. *)
Theorem history_page st w user applicationId q a documents X x :
  (param_applicationId user applicationId st).2 = Next a →
  indices st !! index_of a = Some documents →
  truthy (before q) = Some X →
  range_bound X = Some x →
  ∃ hits,
    (router w (mkRequest (Some user) (GET_logs_history applicationId q)) st).2
    = Send 200 (JArr (map with_id hits))
    ∧ newest 100
        (filter (λ d, in_history text_match x (truthy (content q))
                        (hit_source d) = true) documents) hits.
Proof.
  intros Hgrant Hdocs HX Hx.
  destruct (router_logs_history w user applicationId q st a Hgrant)
    as (st1 & Hind & ->).
  unfold mbind, Handler_bind.
  rewrite get_logs_any_present by (rewrite Hind, Hdocs; eauto).
  unfold get_logs_history. rewrite HX. unfold mbind, Handler_bind.
  edestruct (search_present (index_of a) 100) as (hits & -> & Hnewest);
    [by rewrite Hind | | ].
  { simpl. rewrite Hx. simpl. by destruct (truthy (content q)). }
  exists hits. split; [done |].
  erewrite list_filter_iff; [exact Hnewest |].
  intros d. unfold in_history. simpl. rewrite Hx.
  destruct (get_field "id" (hit_source d)) as [[| | i | | |]|];
    destruct (truthy (content q)); simpl; done.
Qed.

(** *** Access and visibility *)

Lemma param_visible st user a :
  invariant st → a ∈ applications st → visible st user a →
  (param_applicationId user (app_id a) st).2 = Next a.
Proof.
  intros Hinv Hin Hvis. rewrite (param_applicationId_outcome _ _ _ Hinv).
  rewrite (findOne_application_unique _ _ (inv_ids _ Hinv) Hin).
  destruct Hvis as [Hown | (team & Hteam & Ht & Hmem)].
  - by rewrite decide_True.
  - case_decide; [done |].
    assert (truthy (app_teamId a) = Some (team_id team)) as ->.
    { apply truthy_Some. split; [done |]. intros Hempty.
      pose proof (inv_teamId _ Hinv) as Hall. rewrite Forall_forall in Hall.
      apply (Hall a Hin). congruence. }
    rewrite (findOne_team_unique _ _ (inv_teams _ Hinv) Hteam).
    by rewrite (proj2 (includes_true _ _) Hmem).
Qed.

Lemma param_not_visible st user a :
  invariant st → a ∈ applications st → ¬ visible st user a →
  (param_applicationId user (app_id a) st).2 = forbidden.
Proof.
  intros Hinv Hin Hvis. rewrite (param_applicationId_outcome _ _ _ Hinv).
  rewrite (findOne_application_unique _ _ (inv_ids _ Hinv) Hin).
  case_decide as Hown; [destruct Hvis; by left |].
  destruct (truthy (app_teamId a)) as [t|] eqn:Ht; [| done].
  apply truthy_Some in Ht as [Ht _].
  destruct (findOne_team (teams st) t) as [team|] eqn:Hteam; [| done].
  apply findOne_team_Some in Hteam as [Hteam Htid].
  destruct (includes _ _) eqn:Hmem; [| done].
  apply includes_true in Hmem. destruct Hvis. right. exists team.
  by rewrite Htid.
Qed.

Lemma visible_dec st user a : visible st user a ∨ ¬ visible st user a.
Proof.
  unfold visible.
  destruct (decide (app_ownerId a = Some (user_id user))); [by left; left |].
  destruct (decide (Exists (λ team, app_teamId a = Some (team_id team)
    ∧ user_id user ∈ memberIds team) (teams st))) as [Hex | Hex].
  - left. right. apply Exists_exists in Hex as (team & ? & ? & ?). eauto.
  - right. intros [? | (team & ? & ? & ?)]; [done |].
    apply Hex, Exists_exists. eauto.
Qed.

Lemma param_unknown st user i :
  invariant st → (∀ a, a ∈ applications st → app_id a ≠ i) →
  (param_applicationId user i st).2
  = Send 404 (envelope 404 "Unknown application").
Proof.
  intros Hinv Hnone. rewrite (param_applicationId_outcome _ _ _ Hinv).
  destruct (findOne_application _ _) as [a|] eqn:Hf; [| done].
  apply findOne_application_Some in Hf as [Hin Hid]. by destruct (Hnone a).
Qed.

Lemma param_granted st user i a :
  invariant st → (param_applicationId user i st).2 = Next a →
  a ∈ applications st ∧ app_id a = i ∧ visible st user a.
Proof.
  intros Hinv. rewrite (param_applicationId_outcome _ _ _ Hinv).
  destruct (findOne_application _ _) as [b|] eqn:Hf; [| done].
  apply findOne_application_Some in Hf as [Hin Hid]. subst i.
  destruct (visible_dec st user b) as [Hvis | Hvis].
  - pose proof (param_visible st user b Hinv Hin Hvis) as Hb.
    rewrite (param_applicationId_outcome _ _ _ Hinv) in Hb.
    rewrite (findOne_application_unique _ _ (inv_ids _ Hinv) Hin) in Hb.
    rewrite Hb. by intros [= <-].
  - pose proof (param_not_visible st user b Hinv Hin Hvis) as Hb.
    rewrite (param_applicationId_outcome _ _ _ Hinv) in Hb.
    rewrite (findOne_application_unique _ _ (inv_ids _ Hinv) Hin) in Hb.
    by rewrite Hb.
Qed.

(** Every route behind [:applicationId] starts with the access check. *)
Lemma router_tenant_denied w user i route st status body :
  tenant_route i route →
  (param_applicationId user i st).2 = Send status body →
  router w (mkRequest (Some user) route) st
  = ((param_applicationId user i st).1, Send status body).
Proof.
  intros Hroute H.
  destruct Hroute; unfold router, mbind, Handler_bind; simpl;
    destruct (param_applicationId user i st) as [st1 r]; simpl in H; by subst r.
Qed.

(** X4.  A denied access covers every route behind [:applicationId]: when
    the access check answers 404 or 403, the application route and the three
    log routes answer that same response, whatever the query and whatever
    the indices hold, and the tables and indices stay as they were. *)
Theorem denied_everywhere st w user applicationId route status body :
  tenant_route applicationId route →
  (param_applicationId user applicationId st).2 = Send status body →
  let result := router w (mkRequest (Some user) route) st in
  result.2 = Send status body
  ∧ applications result.1 = applications st
  ∧ teams result.1 = teams st
  ∧ indices result.1 = indices st
  ∧ ∀ i, (router w (mkRequest (Some user) route) (set_indices i st)).2
         = Send status body.
Proof.
  intros Hroute Hdenied result. subst result.
  rewrite (router_tenant_denied _ _ _ _ _ _ _ Hroute Hdenied). simpl.
  split; [done |].
  destruct (param_applicationId_frame st user applicationId) as (? & ? & ?).
  repeat split; try done.
  intros i.
  assert ((param_applicationId user applicationId (set_indices i st)).2
          = Send status body) as Hdenied'.
  { rewrite <- Hdenied. clear.
    unfold param_applicationId, mbind, Handler_bind, getById. simpl.
    destruct (cache st !! applicationId) as [a|].
    - case_decide; [done |]. destruct (truthy _); [| done]. simpl.
      destruct (findOne_team _ _); [| done]. by destruct (includes _ _).
    - destruct (findOne_application _ _) as [a|]; [| done].
      case_decide; [done |]. destruct (truthy _); [| done]. simpl.
      destruct (findOne_team _ _); [| done]. by destruct (includes _ _). }
  by rewrite (router_tenant_denied _ _ _ _ _ _ _ Hroute Hdenied').
Qed.

(** X5.  Who reads an application.  In every reachable state, for an
    application of the table: [GET /:applicationId] answers 200 with its
    summary exactly to the users who may see it, and 403 to all others; a
    personal application is seen by its owner alone, and an application of a
    team by exactly the current members of that team. *)
Theorem read_iff_visible st w user a :
  reachable st →
  a ∈ applications st →
  let outcome :=
    (router w (mkRequest (Some user) (GET_application (app_id a))) st).2 in
  (visible st user a → outcome = Send 200 (summary a))
  ∧ (¬ visible st user a →
       outcome = Send 403 (envelope 403 "You have no access to this application"))
  ∧ (∀ owner, app_ownerId a = Some owner →
       (visible st user a ↔ user_id user = owner))
  ∧ (∀ t, app_teamId a = Some t →
       (visible st user a ↔
        ∃ team, team ∈ teams st ∧ team_id team = t
          ∧ user_id user ∈ memberIds team)).
Proof.
  intros Hreach Hin outcome. apply reachable_invariant in Hreach as Hinv.
  subst outcome.
  pose proof (inv_owner _ Hinv) as Hall. rewrite Forall_forall in Hall.
  specialize (Hall a Hin).
  split; [| split; [| split]].
  - intros Hvis. pose proof (param_visible st user a Hinv Hin Hvis) as Hp.
    unfold router, mbind, Handler_bind. simpl.
    destruct (param_applicationId user (app_id a) st) as [st1 r].
    simpl in Hp. by subst r.
  - intros Hvis.
    by rewrite (router_tenant_denied w user (app_id a) _ st _ _
      (tenant_application _) (param_not_visible st user a Hinv Hin Hvis)).
  - intros owner Hown. unfold visible. split.
    + intros [Hu | (team & _ & Ht & _)]; [congruence |].
      destruct Hall as [[_ Hnone] | [Hnone _]]; congruence.
    + intros <-. by left.
  - intros t Ht. unfold visible. split.
    + intros [Hu | (team & Hteam & Ht' & Hmem)].
      * destruct Hall as [[_ Hnone] | [Hnone _]]; congruence.
      * exists team. repeat split; try done. congruence.
    + intros (team & Hteam & Htid & Hmem). right. exists team.
      repeat split; try done. congruence.
Qed.

Lemma router_get_visible st w user a :
  invariant st → a ∈ applications st → visible st user a →
  (router w (mkRequest (Some user) (GET_application (app_id a))) st).2
  = Send 200 (summary a).
Proof.
  intros Hinv Hin Hvis. pose proof (param_visible st user a Hinv Hin Hvis) as Hp.
  unfold router, mbind, Handler_bind. simpl.
  destruct (param_applicationId user (app_id a) st) as [st1 r].
  simpl in Hp. by subst r.
Qed.

Lemma router_get_not_visible st w user a :
  invariant st → a ∈ applications st → ¬ visible st user a →
  (router w (mkRequest (Some user) (GET_application (app_id a))) st).2
  = Send 403 (envelope 403 "You have no access to this application").
Proof.
  intros Hinv Hin Hvis.
  by rewrite (router_tenant_denied w user (app_id a) _ st _ _
    (tenant_application _) (param_not_visible st user a Hinv Hin Hvis)).
Qed.

Lemma summary_listed w st user a :
  invariant st →
  completion w (teams_of_member (teams st) (user_id user))
    ≡ₚ teams_of_member (teams st) (user_id user) →
  a ∈ applications st →
  summary a ∈ map summary (listed w st user) ↔ visible st user a.
Proof.
  intros Hinv Hperm Hin. split.
  - intros (b & Hab & Hb)%list_elem_of_fmap.
    apply listed_visible in Hb as [Hb Hvis]; [| done].
    assert (a = b) as ->; [| done].
    eapply same_id_same_row; [apply (inv_ids _ Hinv) | done | done |].
    by apply summary_id.
  - intros Hvis. apply list_elem_of_fmap_2. by apply listed_visible.
Qed.

(** X6.  The listing and the access check agree.  In every reachable state
    and for every application of the table, its summary is in the answer of
    [/list] to a user exactly when [GET /:applicationId] answers that user
    with this summary. *)
Theorem listed_iff_readable st w w' user a :
  reachable st →
  completion w (teams_of_member (teams st) (user_id user))
    ≡ₚ teams_of_member (teams st) (user_id user) →
  a ∈ applications st →
  ∃ entries,
    (router w (mkRequest (Some user) GET_list) st).2 = Send 200 (JArr entries)
    ∧ (summary a ∈ entries ↔
       (router w' (mkRequest (Some user) (GET_application (app_id a))) st).2
       = Send 200 (summary a)).
Proof.
  intros Hreach Hperm Hin. apply reachable_invariant in Hreach as Hinv.
  exists (map summary (listed w st user)). split; [done |].
  rewrite (summary_listed w st user a Hinv Hperm Hin). split.
  - intros Hvis. by apply router_get_visible.
  - intros Hget. destruct (visible_dec st user a) as [Hvis | Hvis]; [done |].
    by rewrite (router_get_not_visible st w' user a Hinv Hin Hvis) in Hget.
Qed.

(** *** What [/create] leaves behind *)

Lemma provision_cases w row st :
  (∃ error, provision w row st = (st, Reject error)
     ∧ (backend_refuses w = true ∨ is_Some (indices st !! index_of row)))
  ∨ (provision w row st
     = (set_indices (<[index_of row := []]> (indices st)) st,
        Send 200 (entity_json row))
     ∧ backend_refuses w = false
     ∧ indices st !! index_of row = None).
Proof.
  unfold provision, mbind, Handler_bind, indices_create.
  destruct (backend_refuses w); [left; eauto |].
  destruct (indices st !! index_of row) eqn:Hi; [left; eauto | by right].
Qed.

(** The two ways [/create] goes: it answers an error from the state it
    found, or it saves a row and goes on to provision the index. *)
Lemma post_create_cases w user body st :
  (∃ status message,
     post_create w user body st = (st, Send status (envelope status message))
     ∧ (status = 400%Z
        ∨ status = 403%Z ∧ message = "You don't have access to this team"))
  ∨ (∃ teamId ownerId,
       post_create w user body st
       = provision w (created_row w body teamId ownerId)
           (set_applications
              (applications st ++ [created_row w body teamId ownerId]) st)
       ∧ applicationSchema_validate body = None
       ∧ (ownerId = Some (user_id user) ∧ teamId = None
            ∧ truthy (body_teamId body) = None
          ∨ ∃ t team, teamId = Some t ∧ ownerId = None
              ∧ truthy (body_teamId body) = Some t
              ∧ findOne_team (teams st) t = Some team
              ∧ user_id user ∈ memberIds team)).
Proof.
  destruct (applicationSchema_validate body) as [message|] eqn:Hvalid.
  { left. exists 400%Z, message. split; [| by left].
    by apply post_create_invalid. }
  destruct (truthy (body_teamId body)) as [t|] eqn:Ht.
  - destruct (findOne_team (teams st) t) as [team|] eqn:Hteam.
    + destruct (includes (memberIds team) (user_id user)) eqn:Hmem.
      * right. exists (Some t), None.
        split; [by eapply post_create_team |]. split; [done |].
        right. exists t, team. repeat split; try done. by apply includes_true.
      * left. eexists 403%Z, _. split; [by eapply post_create_not_member |].
        by right.
    + left. eexists 400%Z, _. split; [by eapply post_create_unknown_team |].
      by left.
  - right. exists None, (Some (user_id user)).
    split; [by apply post_create_personal |]. split; [done |]. by left.
Qed.



Lemma bind_reads_only_state {A B : Type} (m : Handler A) (f : A → Handler B) st :
  (∀ a, reads_only (f a)) → ((m ≫= f) st).1 = (m st).1.
Proof.
  intros Hf. unfold mbind, Handler_bind.
  destruct (m st) as [st1 [a | status body | error]]; try done. apply Hf.
Qed.

Lemma reads_only_logs a (h : Handler Empty_set) :
  reads_only h → reads_only (get_logs_any a ≫= λ _, h).
Proof.
  intros Hh. apply reads_only_bind; [apply reads_only_get_logs_any | done].
Qed.

(** X8.  What a request can write.  No request changes the team table; no
    request removes or alters a row of the application table, and at most
    one row is added; no request removes an index or touches the documents
    of an existing one.  Every request but [POST /create] leaves the
    application table and the indices exactly as they were. *)
Theorem request_footprint st w req :
  let st' := (router w req st).1 in
  teams st' = teams st
  ∧ (∃ rows, applications st' = (applications st ++ rows)%list
       ∧ (length rows ≤ 1)%nat)
  ∧ indices st ⊆ indices st'
  ∧ ((∀ body, req_route req ≠ POST_create body) →
       applications st' = applications st ∧ indices st' = indices st).
Proof.
  intros st'. subst st'.
  assert (∀ s : State, teams s = teams st → applications s = applications st →
    indices s = indices st →
    teams s = teams st
    ∧ (∃ rows, applications s = (applications st ++ rows)%list
         ∧ (length rows ≤ 1)%nat)
    ∧ indices st ⊆ indices s
    ∧ ((∀ body, req_route req ≠ POST_create body) →
         applications s = applications st ∧ indices s = indices st)) as Hsame.
  { intros s Ht Ha Hi. split; [done |]. split.
    - exists []. rewrite app_nil_r. split; [done | simpl; lia].
    - rewrite Hi. done. }
  destruct req as [[user|] route]; [| by apply Hsame].
  assert (∀ i (h : applicationEntity → Handler Empty_set),
    (∀ a, reads_only (h a)) →
    let s := ((param_applicationId user i ≫= h) st).1 in
    teams s = teams st ∧ applications s = applications st
    ∧ indices s = indices st) as Hparam.
  { intros i h Hh s. subst s. rewrite bind_reads_only_state by done.
    destruct (param_applicationId_frame st user i) as (? & ? & ?). done. }
  destruct route as [| body | i | i q | i | i q].
  - change (router w (mkRequest (Some user) GET_list) st)
      with (get_list w user st).
    apply Hsame; by rewrite reads_only_get_list.
  - change (router w (mkRequest (Some user) (POST_create body)) st)
      with (post_create w user body st).
    split; [| split; [| split]]; [| | | by intros H; destruct (H body)].
    + destruct (post_create_cases w user body st)
        as [(? & ? & -> & _) | (teamId & ownerId & -> & _)]; [done |].
      by destruct (provision_cases w (created_row w body teamId ownerId)
        (set_applications (applications st ++
           [created_row w body teamId ownerId]) st))
        as [(? & -> & _) | (-> & _)].
    + destruct (post_create_cases w user body st)
        as [(? & ? & -> & _) | (teamId & ownerId & -> & _)].
      { exists []. rewrite app_nil_r. split; [done | simpl; lia]. }
      rewrite provision_applications. simpl. eexists. split; [done | simpl; lia].
    + destruct (post_create_cases w user body st)
        as [(? & ? & -> & _) | (teamId & ownerId & -> & _)]; [done |].
      destruct (provision_cases w (created_row w body teamId ownerId)
        (set_applications (applications st ++
           [created_row w body teamId ownerId]) st))
        as [(? & -> & _) | (-> & _ & Hnone)]; [done |].
      simpl. by apply insert_subseteq.
  - change (router w (mkRequest (Some user) (GET_application i)) st)
      with ((param_applicationId user i ≫= get_application) st).
    destruct (Hparam i _ reads_only_get_application) as (? & ? & ?).
    by apply Hsame.
  - change (router w (mkRequest (Some user) (GET_logs_search i q)) st)
      with ((param_applicationId user i
               ≫= λ a, get_logs_any a ≫= λ _, get_logs_search a q) st).
    destruct (Hparam i (λ a, get_logs_any a ≫= λ _, get_logs_search a q))
      as (? & ? & ?); [| by apply Hsame].
    intros a. apply reads_only_logs, reads_only_get_logs_search.
  - change (router w (mkRequest (Some user) (GET_logs_recent i)) st)
      with ((param_applicationId user i
               ≫= λ a, get_logs_any a ≫= λ _, get_logs_recent a) st).
    destruct (Hparam i (λ a, get_logs_any a ≫= λ _, get_logs_recent a))
      as (? & ? & ?); [| by apply Hsame].
    intros a. apply reads_only_logs, reads_only_get_logs_recent.
  - change (router w (mkRequest (Some user) (GET_logs_history i q)) st)
      with ((param_applicationId user i
               ≫= λ a, get_logs_any a ≫= λ _, get_logs_history a q) st).
    destruct (Hparam i (λ a, get_logs_any a ≫= λ _, get_logs_history a q))
      as (? & ? & ?); [| by apply Hsame].
    intros a. apply reads_only_logs, reads_only_get_logs_history.
Qed.

(** *** The records of a tenant *)

Lemma get_field_set_field_eq k v fields :
  get_field k (set_field k v fields) = Some v.
Proof.
  induction fields as [|[k0 v0] fields IH]; simpl.
  - by rewrite decide_True.
  - destruct (decide (k0 = k)) as [-> |]; simpl.
    + by rewrite decide_True.
    + by rewrite decide_False.
Qed.

Lemma search_cases index size q st :
  (∃ error, search index size q st = (st, Reject error))
  ∨ (∃ documents hits,
       indices st !! index = Some documents
       ∧ search index size q st = (st, Next hits)
       ∧ hits ⊆ documents).
Proof.
  unfold search. destruct (indices st !! index) as [documents|]; [| eauto].
  destruct (admits q); [| eauto]. right. eexists _, _.
  split; [done |]. split; [done |].
  intros h Hh. apply subseteq_take in Hh. rewrite merge_sort_Permutation in Hh.
  by apply list_elem_of_filter in Hh as [_ ?].
Qed.

(** The four ways a log route ends once the access is granted. *)
Lemma logs_outcome w user i route st a :
  logs_route i route →
  (param_applicationId user i st).2 = Next a →
  let outcome := (router w (mkRequest (Some user) route) st).2 in
  (indices st !! index_of a = None ∧ outcome = Send 200 (JArr []))
  ∨ (∃ p, outcome = Send 400 (envelope 400 (missing_parameter p)))
  ∨ (∃ error, outcome = Reject error)
  ∨ (∃ documents hits,
       indices st !! index_of a = Some documents
       ∧ outcome = Send 200 (JArr (map with_id hits))
       ∧ hits ⊆ documents).
Proof.
  intros Hroute Hgrant outcome. subst outcome.
  assert (∀ st1 (h : Handler Empty_set),
    indices st1 = indices st →
    (∀ documents, indices st1 !! index_of a = Some documents →
       (∃ p, (h st1).2 = Send 400 (envelope 400 (missing_parameter p)))
       ∨ (∃ error, (h st1).2 = Reject error)
       ∨ (∃ hits, (h st1).2 = Send 200 (JArr (map with_id hits))
            ∧ hits ⊆ documents)) →
    let outcome := ((get_logs_any a ≫= λ _, h) st1).2 in
    (indices st !! index_of a = None ∧ outcome = Send 200 (JArr []))
    ∨ (∃ p, outcome = Send 400 (envelope 400 (missing_parameter p)))
    ∨ (∃ error, outcome = Reject error)
    ∨ (∃ documents hits,
         indices st !! index_of a = Some documents
         ∧ outcome = Send 200 (JArr (map with_id hits))
         ∧ hits ⊆ documents)) as Hgate.
  { intros st1 h Hind Hh outcome. subst outcome. unfold mbind, Handler_bind.
    destruct (indices st1 !! index_of a) as [documents|] eqn:Hi.
    - rewrite get_logs_any_present by by rewrite Hi.
      rewrite Hind in Hi.
      destruct (Hh documents eq_refl) as [? | [? | (hits & ? & ?)]]; eauto 10.
    - rewrite get_logs_any_missing by done. left. by rewrite <- Hind. }
  assert (∀ st1 size q' documents,
    indices st1 !! index_of a = Some documents →
    let h : Handler Empty_set :=
      search (index_of a) size q' ≫= λ hits,
        send 200 (JArr (map with_id hits)) in
    (∃ p, (h st1).2 = Send 400 (envelope 400 (missing_parameter p)))
    ∨ (∃ error, (h st1).2 = Reject error)
    ∨ (∃ hits, (h st1).2 = Send 200 (JArr (map with_id hits))
         ∧ hits ⊆ documents)) as Hsearch.
  { intros st1 size q' documents Hi h. subst h. unfold mbind, Handler_bind.
    destruct (search_cases (index_of a) size q' st1)
      as [(error & ->) | (documents' & hits & Hi' & -> & Hsub)];
      [right; left; by eexists |].
    right. right. exists hits. split; [done |].
    by assert (documents' = documents) as <- by congruence. }
  destruct Hroute as [q | | q].
  - destruct (router_logs_search w user i q st a Hgrant) as (st1 & Hind & ->).
    apply Hgate; [done |]. intros documents Hi. unfold get_logs_search.
    destruct (truthy (content q)) as [c|]; [| left; by eexists].
    destruct (decodeURI c) as [text|]; [| right; left; by eexists].
    by apply Hsearch.
  - destruct (router_logs_recent w user i st a Hgrant) as (st1 & Hind & ->).
    apply Hgate; [done |]. intros documents Hi. unfold get_logs_recent.
    by apply Hsearch.
  - destruct (router_logs_history w user i q st a Hgrant) as (st1 & Hind & ->).
    apply Hgate; [done |]. intros documents Hi. unfold get_logs_history.
    destruct (truthy (before q)) as [X|]; [| left; by eexists].
    by apply Hsearch.
Qed.

(** X9.  The records of a log route are the tenant's own.  Whenever a
    granted search, recent or history request is answered with records,
    each record is a document of the index of the resolved application,
    with the backend's identifier in [_id] and every other field as it is
    stored. *)
Theorem records_of_own_index st w user applicationId route a records :
  logs_route applicationId route →
  (param_applicationId user applicationId st).2 = Next a →
  (router w (mkRequest (Some user) route) st).2 = Send 200 (JArr records) →
  ∀ r, r ∈ records →
    ∃ documents hit fields,
      indices st !! index_of a = Some documents
      ∧ hit ∈ documents
      ∧ r = JObj fields
      ∧ get_field "_id" fields = Some (JStr (hit_id hit))
      ∧ ∀ k, k ≠ "_id" → get_field k fields = get_field k (hit_source hit).
Proof.
  intros Hroute Hgrant Hout r Hr.
  destruct (logs_outcome w user applicationId route st a Hroute Hgrant)
    as [[_ H] | [[p H] | [[error H] | (documents & hits & Hi & H & Hsub)]]];
    rewrite Hout in H; try done.
  - injection H as ->. by apply elem_of_nil in Hr.
  - injection H as ->. apply list_elem_of_fmap in Hr as (hit & -> & Hhit).
    exists documents, hit. eexists. split; [done |].
    split; [by apply Hsub |]. split; [reflexivity |].
    split; [apply get_field_set_field_eq |].
    intros k Hk. by apply get_field_set_field_ne.
Qed.

Lemma param_set_indices user i idx st :
  (param_applicationId user i (set_indices idx st)).2
  = (param_applicationId user i st).2.
Proof.
  unfold param_applicationId, mbind, Handler_bind, getById. simpl.
  destruct (cache st !! i) as [a|].
  - case_decide; [done |]. destruct (truthy _); [| done]. simpl.
    destruct (findOne_team _ _); [| done]. by destruct (includes _ _).
  - destruct (findOne_application _ _) as [a|]; [| done].
    case_decide; [done |]. destruct (truthy _); [| done]. simpl.
    destruct (findOne_team _ _); [| done]. by destruct (includes _ _).
Qed.

Lemma search_then_send_same index size q s1 s2 :
  indices s1 !! index = indices s2 !! index →
  ((search index size q ≫= λ hits, send 200 (JArr (map with_id hits))) s1
     : State * Result Empty_set).2
  = ((search index size q ≫= λ hits, send 200 (JArr (map with_id hits))) s2
       : State * Result Empty_set).2.
Proof.
  intros H. unfold mbind, Handler_bind, search. rewrite H.
  destruct (indices s2 !! index); [| done]. by destruct (admits q).
Qed.

Lemma logs_chain_same a (h : Handler Empty_set) s1 s2 :
  indices s1 !! index_of a = indices s2 !! index_of a →
  (h s1).2 = (h s2).2 →
  ((get_logs_any a ≫= λ _, h) s1).2 = ((get_logs_any a ≫= λ _, h) s2).2.
Proof.
  intros Hi Hh. unfold mbind, Handler_bind.
  destruct (indices s2 !! index_of a) as [documents|] eqn:H2.
  - rewrite !get_logs_any_present by (rewrite ?Hi, ?H2; eauto). done.
  - rewrite !get_logs_any_missing by (by rewrite ?Hi, ?H2). done.
Qed.

Lemma index_of_inj a b : index_of a = index_of b → app_id a = app_id b.
Proof. unfold index_of. intros H. cbv [String.append] in H. by simplify_eq. Qed.

(** X10.  Tenants are isolated.  What a granted log route answers depends
    on the indices only through the index of the resolved application: any
    two contents of the backend that agree on that index give the same
    answer.  Two applications with different identifiers have different
    indices, so writing or deleting the index of one tenant never changes
    what another tenant is answered. *)
Theorem tenant_isolation st w user applicationId route a :
  logs_route applicationId route →
  (param_applicationId user applicationId st).2 = Next a →
  (∀ idx, idx !! index_of a = indices st !! index_of a →
     (router w (mkRequest (Some user) route) (set_indices idx st)).2
     = (router w (mkRequest (Some user) route) st).2)
  ∧ (∀ b documents, app_id b ≠ app_id a →
       (router w (mkRequest (Some user) route)
          (set_indices (<[index_of b := documents]> (indices st)) st)).2
       = (router w (mkRequest (Some user) route) st).2
       ∧ (router w (mkRequest (Some user) route)
            (set_indices (delete (index_of b) (indices st)) st)).2
         = (router w (mkRequest (Some user) route) st).2).
Proof.
  intros Hroute Hgrant.
  assert (∀ idx, idx !! index_of a = indices st !! index_of a →
    (router w (mkRequest (Some user) route) (set_indices idx st)).2
    = (router w (mkRequest (Some user) route) st).2) as Hgeneral.
  { intros idx Hidx.
    pose proof Hgrant as Hgrant'. rewrite <- (param_set_indices _ _ idx) in Hgrant'.
    destruct Hroute as [q | | q].
    - destruct (router_logs_search w user applicationId q st a Hgrant)
        as (st1 & Hind & ->).
      destruct (router_logs_search w user applicationId q _ a Hgrant')
        as (st2 & Hind' & ->).
      assert (indices st2 !! index_of a = indices st1 !! index_of a) as Hi
        by (by rewrite Hind, Hind').
      apply logs_chain_same; [done |]. unfold get_logs_search.
      destruct (truthy (content q)) as [c|]; [| done].
      destruct (decodeURI c) as [text|]; [| done].
      by apply search_then_send_same.
    - destruct (router_logs_recent w user applicationId st a Hgrant)
        as (st1 & Hind & ->).
      destruct (router_logs_recent w user applicationId _ a Hgrant')
        as (st2 & Hind' & ->).
      assert (indices st2 !! index_of a = indices st1 !! index_of a) as Hi
        by (by rewrite Hind, Hind').
      apply logs_chain_same; [done |]. unfold get_logs_recent.
      by apply search_then_send_same.
    - destruct (router_logs_history w user applicationId q st a Hgrant)
        as (st1 & Hind & ->).
      destruct (router_logs_history w user applicationId q _ a Hgrant')
        as (st2 & Hind' & ->).
      assert (indices st2 !! index_of a = indices st1 !! index_of a) as Hi
        by (by rewrite Hind, Hind').
      apply logs_chain_same; [done |]. unfold get_logs_history.
      destruct (truthy (before q)) as [X|]; [| done].
      by apply search_then_send_same. }
  split; [done |].
  intros b documents Hb.
  assert (index_of b ≠ index_of a) as Hne
    by (intros H; by apply index_of_inj in H).
  split; apply Hgeneral.
  - by apply lookup_insert_ne.
  - by apply lookup_delete_ne.
Qed.

(** X11.  A created application is there for its creator.  When [/create]
    answers 200 in a reachable state, then in the state it leaves the
    creator is answered the summary of the new application by
    [GET /:applicationId], the empty array by [/logs/recent] (the index is
    there and holds nothing yet), and a listing that holds the summary. *)
Theorem create_then_read st w user body response :
  reachable st →
  findOne_application (applications st) (generated_id w) = None →
  (router w (mkRequest (Some user) (POST_create body)) st).2 = Send 200 response →
  let st' := (router w (mkRequest (Some user) (POST_create body)) st).1 in
  ∃ row,
    response = entity_json row
    ∧ ∀ w',
        (router w' (mkRequest (Some user) (GET_application (app_id row))) st').2
        = Send 200 (summary row)
        ∧ (router w' (mkRequest (Some user) (GET_logs_recent (app_id row))) st').2
          = Send 200 (JArr [])
        ∧ (completion w' (teams_of_member (teams st') (user_id user))
             ≡ₚ teams_of_member (teams st') (user_id user) →
           ∃ entries,
             (router w' (mkRequest (Some user) GET_list) st').2
             = Send 200 (JArr entries)
             ∧ summary row ∈ entries).
Proof.
  intros Hreach Hfresh Hout st'.
  assert (reachable st') as Hreach'.
  { eapply rtc_r; [exact Hreach |]. by apply step_request. }
  apply reachable_invariant in Hreach' as Hinv'.
  subst st'.
  change (router w (mkRequest (Some user) (POST_create body)) st)
    with (post_create w user body st) in *.
  destruct (post_create_cases w user body st)
    as [(status & message & Hpost & Hstatus)
       | (teamId & ownerId & Hpost & _ & Howner)];
    rewrite Hpost in *.
  { simpl in Hout. destruct Hstatus as [? | [? _]]; congruence. }
  set (row := created_row w body teamId ownerId) in *.
  destruct (provision_cases w row
    (set_applications (applications st ++ [row]) st))
    as [(error & Hprov & _) | (Hprov & _ & Hnone)];
    rewrite Hprov in *; [done |].
  cbn [fst snd] in *. injection Hout as <-.
  set (st' := set_indices _ _) in *.
  exists row. split; [done |].
  assert (row ∈ applications st') as Hin.
  { simpl. apply elem_of_app. right. by apply list_elem_of_singleton. }
  assert (visible st' user row) as Hvis.
  { destruct Howner as [(-> & -> & _) | (t & team & -> & -> & _ & Hteam & Hmem)].
    - by left.
    - right. apply findOne_team_Some in Hteam as [Hteam Htid].
      exists team. simpl. by rewrite Htid. }
  intros w'. split; [by apply router_get_visible |]. split.
  - pose proof (param_visible st' user row Hinv' Hin Hvis) as Hgrant.
    destruct (router_logs_recent w' user (app_id row) st' row Hgrant)
      as (st1 & Hind & ->).
    assert (indices st1 !! index_of row = Some []) as Hi.
    { rewrite Hind. simpl. apply lookup_insert_eq. }
    unfold mbind, Handler_bind.
    rewrite get_logs_any_present by by rewrite Hi.
    unfold get_logs_recent, mbind, Handler_bind, search. by rewrite Hi.
  - intros Hperm. exists (map summary (listed w' st' user)).
    split; [done |]. by apply summary_listed.
Qed.

(** *** Paging through the history *)

Lemma in_history_id x c (d : searchHit) :
  in_history text_match x c (hit_source d) = true →
  ∃ i, id_of d = Some i ∧ (i < x)%Z.
Proof.
  unfold in_history, id_of.
  destruct (get_field "id" (hit_source d)) as [[| | i | | |]|]; try done.
  rewrite andb_true_iff, bool_decide_eq_true. intros [Hi _]. by exists i.
Qed.

Lemma in_history_bound x y c (d : searchHit) i :
  id_of d = Some i → (i < y)%Z →
  in_history text_match x c (hit_source d) = true →
  in_history text_match y c (hit_source d) = true.
Proof.
  unfold in_history, id_of.
  destruct (get_field "id" (hit_source d)) as [[| | j | | |]|]; try done.
  intros [= ->] Hy. rewrite !andb_true_iff, !bool_decide_eq_true.
  intros [_ Hc]. done.
Qed.

Lemma history_newest st w user applicationId q a documents X x :
  (param_applicationId user applicationId st).2 = Next a →
  indices st !! index_of a = Some documents →
  truthy (before q) = Some X →
  range_bound X = Some x →
  ∃ hits,
    (router w (mkRequest (Some user) (GET_logs_history applicationId q)) st).2
    = Send 200 (JArr (map with_id hits))
    ∧ newest 100
        (filter (λ d, in_history text_match x (truthy (content q))
                        (hit_source d) = true) documents) hits.
Proof.
  intros Hgrant Hdocs HX Hx.
  destruct (router_logs_history w user applicationId q st a Hgrant)
    as (st1 & Hind & ->).
  unfold mbind, Handler_bind.
  rewrite get_logs_any_present by (rewrite Hind, Hdocs; eauto).
  unfold get_logs_history. rewrite HX. unfold mbind, Handler_bind.
  edestruct (search_present (index_of a) 100) as (hits & -> & Hnewest);
    [by rewrite Hind | | ].
  { simpl. rewrite Hx. simpl. by destruct (truthy (content q)). }
  exists hits. split; [done |].
  erewrite list_filter_iff; [exact Hnewest |].
  intros d. unfold in_history. simpl. rewrite Hx.
  destruct (get_field "id" (hit_source d)) as [[| | i | | |]|];
    destruct (truthy (content q)); simpl; done.
Qed.

(** The second page continues the first. *)
Lemma newest_continue n1 n2 (matching hits1 rest1 hits2 : list searchHit) :
  matching ≡ₚ hits1 ++ rest1 →
  StronglySorted time_desc hits1 →
  (∀ x y, x ∈ hits1 → y ∈ rest1 → time_desc x y) →
  (length hits1 ≤ n1)%nat →
  ((length hits1 < n1)%nat → rest1 = []) →
  newest n2 rest1 hits2 →
  newest (n1 + n2) matching (hits1 ++ hits2).
Proof.
  intros Hperm Hsorted Hcross Hlen Hshort (rest2 & Hperm2 & Hsorted2 & Hcross2 & Hlen2 & Hshort2).
  exists rest2. split; [| split; [| split; [| split]]].
  - by rewrite Hperm, Hperm2, app_assoc.
  - apply StronglySorted_app_2; [| done | done].
    intros x y Hx Hy. apply Hcross; [done |].
    rewrite Hperm2. apply elem_of_app. by left.
  - intros x y [Hx | Hx]%elem_of_app Hy.
    + apply Hcross; [done |]. rewrite Hperm2. apply elem_of_app. by right.
    + by apply Hcross2.
  - rewrite length_app. lia.
  - rewrite length_app. intros Hlt.
    destruct (decide (length hits1 < n1)%nat) as [H1 | H1].
    + rewrite (Hshort H1) in Hperm2. symmetry in Hperm2.
      apply Permutation_nil_r in Hperm2. by apply app_nil_r_inv in Hperm2.
    + apply Hshort2. lia.
Qed.

Lemma newest_Permutation n (l l' hits : list searchHit) :
  l ≡ₚ l' → newest n l hits → newest n l' hits.
Proof.
  intros Hl (rest & Hperm & ?). exists rest. split; [| done].
  by rewrite <- Hl.
Qed.

Lemma NoDup_fmap_eq {A B : Type} (f : A → B) (l : list A) x y :
  NoDup (map f l) → x ∈ l → y ∈ l → f x = f y → x = y.
Proof.
  induction l as [|z l IH]; simpl.
  - intros _ H. by apply elem_of_nil in H.
  - intros [Hz Hl]%NoDup_cons [-> | Hx]%elem_of_cons [-> | Hy]%elem_of_cons Hf;
      try done.
    + destruct Hz. rewrite Hf. by apply list_elem_of_fmap_2.
    + destruct Hz. rewrite <- Hf. by apply list_elem_of_fmap_2.
    + by apply IH.
Qed.

(** X12.  Two pages of the history.  Take a tenant whose documents have
    each their own [id], ordered as their [time] is.  A granted history
    request is answered with the 100 newest documents below its cursor; a
    second request with the cursor at the least [id] of that page (and the
    same [content]) is answered with documents none of which was on the
    first page, and the two pages together are the 200 newest documents
    below the first cursor: nothing is skipped and nothing comes twice. *)
Theorem history_next_page st w user applicationId q1 a documents X1 x1 :
  (param_applicationId user applicationId st).2 = Next a →
  indices st !! index_of a = Some documents →
  NoDup (map id_of documents) →
  (∀ d1 d2 i1 i2,
     d1 ∈ documents → d2 ∈ documents →
     id_of d1 = Some i1 → id_of d2 = Some i2 →
     time_desc d1 d2 → (i2 ≤ i1)%Z) →
  truthy (before q1) = Some X1 →
  range_bound X1 = Some x1 →
  let matching :=
    filter (λ d, in_history text_match x1 (truthy (content q1))
                   (hit_source d) = true) documents in
  ∃ hits1,
    (router w (mkRequest (Some user) (GET_logs_history applicationId q1)) st).2
    = Send 200 (JArr (map with_id hits1))
    ∧ newest 100 matching hits1
    ∧ ∀ w2 q2 X2 least hit,
        truthy (content q2) = truthy (content q1) →
        truthy (before q2) = Some X2 →
        range_bound X2 = Some least →
        hit ∈ hits1 → id_of hit = Some least →
        (∀ h i, h ∈ hits1 → id_of h = Some i → (least ≤ i)%Z) →
        ∃ hits2,
          (router w2
             (mkRequest (Some user) (GET_logs_history applicationId q2)) st).2
          = Send 200 (JArr (map with_id hits2))
          ∧ (∀ h, h ∈ hits2 → h ∉ hits1)
          ∧ newest 200 matching (hits1 ++ hits2).
Proof.
  intros Hgrant Hdocs Hids Horder HX1 Hx1 matching.
  destruct (history_newest st w user applicationId q1 a documents X1 x1)
    as (hits1 & Hout1 & Hnew1); try done.
  exists hits1. split; [done |]. split; [done |].
  intros w2 q2 X2 least hit Hcontent HX2 Hleast Hhit Hhit_id Hmin.
  destruct (history_newest st w2 user applicationId q2 a documents X2 least)
    as (hits2 & Hout2 & Hnew2); try done.
  rewrite Hcontent in Hnew2.
  set (c := truthy (content q1)) in *.
  set (next := filter (λ d, in_history text_match least c (hit_source d) = true)
                 documents) in *.
  destruct Hnew1 as (rest1 & Hperm1 & Hsorted1 & Hcross1 & Hlen1 & Hshort1).
  assert (NoDup documents) as Hnodup by by eapply NoDup_fmap_1.
  assert (NoDup matching) as Hnd1 by by apply NoDup_filter.
  assert (NoDup (hits1 ++ rest1)) as Hnd by by rewrite <- Hperm1.
  apply NoDup_app in Hnd as (_ & Hdisj & Hndrest).
  assert (∀ d, d ∈ hits1 ∨ d ∈ rest1 ↔
    d ∈ documents ∧ in_history text_match x1 c (hit_source d) = true) as Hmem.
  { intros d. rewrite <- elem_of_app, <- Hperm1. unfold matching.
    rewrite list_elem_of_filter. tauto. }
  assert (least < x1)%Z as Hlt.
  { destruct (proj1 (Hmem hit) (or_introl Hhit)) as [_ Hin].
    apply in_history_id in Hin as (i & Hi & ?). congruence. }
  assert (next ≡ₚ rest1) as Hnext.
  { apply NoDup_Permutation; [by apply NoDup_filter | done |].
    intros d. unfold next. rewrite list_elem_of_filter. split.
    - intros [Hin Hd].
      pose proof (in_history_id _ _ _ Hin) as (i & Hi & Hil).
      destruct (proj2 (Hmem d)) as [Hd1 | Hd1]; [| | done].
      + split; [done |]. apply (in_history_bound least x1 _ _ i); [done | lia | done].
      + specialize (Hmin d i Hd1 Hi). lia.
    - intros Hd. destruct (proj1 (Hmem d) (or_intror Hd)) as [Hdoc Hin].
      split; [| done].
      pose proof (in_history_id _ _ _ Hin) as (i & Hi & Hil).
      destruct (proj1 (Hmem hit) (or_introl Hhit)) as [Hhit_doc _].
      pose proof (Horder hit d least i Hhit_doc Hdoc Hhit_id Hi
        (Hcross1 hit d Hhit Hd)) as Hle.
      assert (i ≠ least) as Hne.
      { intros ->. assert (hit = d) as ->.
        { eapply (NoDup_fmap_eq id_of); [exact Hids | done | done | congruence]. }
        by apply (Hdisj d). }
      apply (in_history_bound x1 least _ _ i); [done | lia | done]. }
  exists hits2. split; [done |]. split.
  - intros h Hh2 Hh1.
    destruct Hnew2 as (rest2 & Hperm2 & _).
    assert (h ∈ next) as Hin by (rewrite Hperm2; apply elem_of_app; by left).
    unfold next in Hin. apply list_elem_of_filter in Hin as [Hin _].
    apply in_history_id in Hin as (i & Hi & Hil).
    specialize (Hmin h i Hh1 Hi). lia.
  - change 200 with (100 + 100).
    eapply newest_continue; try done.
    by apply (newest_Permutation _ next).
Qed.

(** *** The session gate *)

Lemma param_outcome_shape st user i :
  (∃ a, (param_applicationId user i st).2 = Next a)
  ∨ (param_applicationId user i st).2
    = Send 404 (envelope 404 "Unknown application")
  ∨ (param_applicationId user i st).2 = forbidden.
Proof.
  unfold param_applicationId, mbind, Handler_bind, getById.
  destruct (cache st !! i) as [a|].
  - case_decide; [left; by eexists |].
    destruct (truthy _); [| by right; right]. simpl.
    destruct (findOne_team _ _); [| by right; right].
    destruct (includes _ _); [left; by eexists | by right; right].
  - destruct (findOne_application _ _) as [a|]; [| by right; left].
    case_decide; [left; by eexists |].
    destruct (truthy _); [| by right; right]. simpl.
    destruct (findOne_team _ _); [| by right; right].
    destruct (includes _ _); [left; by eexists | by right; right].
Qed.

Lemma router_get_granted st w user i a :
  (param_applicationId user i st).2 = Next a →
  (router w (mkRequest (Some user) (GET_application i)) st).2
  = Send 200 (summary a).
Proof.
  intros H. unfold router, mbind, Handler_bind. simpl.
  destruct (param_applicationId user i st) as [st1 r]. simpl in H. by subst r.
Qed.

(** X13.  The session gate.  A request without a session user is answered
    403 "Not logged in" on every route and changes nothing; a request with
    a session user is never answered that response, on any route and in
    any state. *)
Theorem not_logged_in_iff st w req :
  ((router w req st).2 = Send 403 (envelope 403 "Not logged in")
   ↔ req_user req = None)
  ∧ (req_user req = None → (router w req st).1 = st).
Proof.
  destruct req as [[user|] route]; simpl; [| done].
  split; [| done]. split; [| done]. intros Hout. exfalso.
  assert (∀ i, tenant_route i route → False) as Htenant.
  { intros i Hroute.
    destruct (param_outcome_shape st user i) as [[a Hp] | [Hp | Hp]].
    - destruct Hroute as [| q | | q].
      + by rewrite (router_get_granted st w user i a Hp) in Hout.
      + destruct (logs_outcome w user i _ st a (logs_search i q) Hp)
          as [[_ H] | [[p H] | [[error H] | (? & ? & _ & H & _)]]];
          by rewrite Hout in H.
      + destruct (logs_outcome w user i _ st a (logs_recent i) Hp)
          as [[_ H] | [[p H] | [[error H] | (? & ? & _ & H & _)]]];
          by rewrite Hout in H.
      + destruct (logs_outcome w user i _ st a (logs_history i q) Hp)
          as [[_ H] | [[p H] | [[error H] | (? & ? & _ & H & _)]]];
          by rewrite Hout in H.
    - by rewrite (router_tenant_denied w user i route st _ _ Hroute Hp) in Hout.
    - by rewrite (router_tenant_denied w user i route st _ _ Hroute Hp) in Hout. }
  destruct route as [| body | i | i q | i | i q];
    try (by eapply Htenant; constructor).
  - done.
  - change (router w (mkRequest (Some user) (POST_create body)) st)
      with (post_create w user body st) in Hout.
    destruct (post_create_cases w user body st)
      as [(status & message & Hpost & Hstatus) | (teamId & ownerId & Hpost & _)];
      rewrite Hpost in Hout.
    + simpl in Hout. destruct Hstatus as [-> | [-> ->]]; done.
    + by destruct (provision_cases w (created_row w body teamId ownerId)
        (set_applications (applications st ++
           [created_row w body teamId ownerId]) st))
        as [(? & Hprov & _) | (Hprov & _)]; rewrite Hprov in Hout.
Qed.

End Properties.

(** ** The properties on the run *)

Ltac by_compute := apply (bool_decide_unpack _); vm_compute; exact I.

Local Abbreviation ex_reachable :=
  (reachable name_required decode_plain decimal_bound words_match).
Local Abbreviation ex_step :=
  (step name_required decode_plain decimal_bound words_match).

Lemma ex_state0_reachable : ex_reachable ex_state0.
Proof. eapply rtc_r; [apply rtc_refl |]. apply step_teams. by_compute. Qed.

Lemma ex_state1_reachable : ex_reachable ex_state1.
Proof.
  eapply rtc_r; [exact ex_state0_reachable |].
  apply (step_request _ _ _ _ ex_state0 (ex_world "a1" false)). reflexivity.
Qed.

Lemma ex_state2_reachable : ex_reachable ex_state2.
Proof.
  eapply rtc_r; [exact ex_state1_reachable |].
  apply (step_request _ _ _ _ ex_state1 (ex_world "a2" false)). reflexivity.
Qed.

Lemma ex_state3_reachable : ex_reachable ex_state3.
Proof. eapply rtc_r; [exact ex_state2_reachable |]. apply step_indices. Qed.

Lemma ex_state4_reachable : ex_reachable ex_state4.
Proof.
  eapply rtc_r; [exact ex_state3_reachable |].
  apply (step_request _ _ _ _ ex_state3 (ex_world "a3" false)). reflexivity.
Qed.

Lemma ex_state5_reachable : ex_reachable ex_state5.
Proof.
  eapply rtc_r; [exact ex_state4_reachable |].
  apply (step_request _ _ _ _ ex_state4 (ex_world "a3" true)). reflexivity.
Qed.

(** C1 on the run: alice, a member of [t1], is granted the team's
    application. *)
Lemma access_resolution_witness :
  ex_reachable ex_state5
  ∧ (param_applicationId alice "a2" ex_state5).2 = Next ex_a2.
Proof.
  split; [apply ex_state5_reachable |].
  destruct (access_resolution name_required decode_plain decimal_bound
    words_match ex_state5 alice "a2" ex_state5_reachable) as [_ H].
  destruct (H ex_a2) as (_ & Hteam & _); [by_compute | reflexivity |].
  apply (Hteam ltac:(discriminate) "t1" ex_team);
    [reflexivity | by_compute | reflexivity | by_compute].
Defined.

(** C2 on the run: alice was granted [a2], which left the record in the
    cache; once she is taken out of [t1] the next request is denied. *)
Lemma membership_is_current_witness :
  cache ex_state5 !! "a2" = Some ex_a2
  ∧ (param_applicationId alice "a2"
       (set_teams ex_teams_without_alice ex_state5)).2
    = Send 403 (envelope 403 "You have no access to this application").
Proof.
  split; [reflexivity |].
  apply (proj2 (membership_is_current name_required decode_plain decimal_bound
    words_match) ex_state5 alice ex_a2 "t1" ex_teams_without_alice
    ex_state5_reachable); [by_compute | reflexivity | by_compute |].
  intros team Hin _. apply list_elem_of_singleton in Hin. subst team. by_compute.
Defined.

(** C3 on the run: alice's call without [teamId]. *)
Lemma create_postconditions_witness :
  ex_reachable ex_state4
  ∧ name_required ex_body_batch = None
  ∧ ∃ row,
      applications
        (post_create name_required (ex_world "a3" false) alice ex_body_batch
           ex_state4).1
      = (applications ex_state4 ++ [row])%list
      ∧ app_ownerId row = Some "alice" ∧ app_teamId row = None.
Proof.
  split; [apply ex_state4_reachable |]. split; [reflexivity |].
  apply (proj1 (proj2 (create_postconditions name_required decode_plain
    decimal_bound words_match ex_state4 (ex_world "a3" false) alice
    ex_body_batch ex_state4_reachable) eq_refl)).
  reflexivity.
Defined.

(** C4 on the run. *)
Lemma exactly_one_owner_witness :
  ex_reachable ex_state5 ∧ Forall one_owner (applications ex_state5).
Proof.
  split; [apply ex_state5_reachable |].
  apply Forall_forall.
  apply (proj2 (exactly_one_owner name_required decode_plain decimal_bound
    words_match) ex_state5 ex_state5_reachable).
Defined.

(** C5 on the run: alice sees her own [a3] and the team's [a2]. *)
Lemma listing_witness :
  ex_reachable ex_state5
  ∧ ∃ l,
      ex_router (ex_world "a9" false) (mkRequest (Some alice) GET_list) ex_state5
      = (ex_state5, Send 200 (JArr (map summary l)))
      ∧ NoDup (map summary l)
      ∧ map summary l
        = map (λ a,
            JObj [("id", JStr (app_id a));
                  ("name", from_option JStr JNull (app_name a));
                  ("teamId", from_option JStr JNull (app_teamId a));
                  ("ownerId", from_option JStr JNull (app_ownerId a));
                  ("createdAt", JNum (app_createdAt a));
                  ("updatedAt", JNum (app_updatedAt a))]) l.
Proof.
  split; [apply ex_state5_reachable |].
  destruct (listing name_required decode_plain decimal_bound words_match
    ex_state5 (ex_world "a9" false) alice ex_state5_reachable)
    as (l & Hsent & _ & _ & Hnodup & _ & Hvalues); [reflexivity |].
  exists l. split; [exact Hsent |]. split; [exact Hnodup | exact Hvalues].
Defined.

(** C6: alice's application [a3] has no index, and her search without
    [content] is answered with the empty array, not with a 400. *)
Lemma missing_parameter_400_counterexample :
  (param_applicationId alice "a3" ex_state5).2 = Next ex_a3
  ∧ truthy (content ex_query_none) = None
  ∧ (ex_router (ex_world "a9" false)
       (mkRequest (Some alice) (GET_logs_search "a3" ex_query_none)) ex_state5).2
    = Send 200 (JArr [])
  ∧ (ex_router (ex_world "a9" false)
       (mkRequest (Some alice) (GET_logs_search "a3" ex_query_none)) ex_state5).2
    ≠ Send 400 (envelope 400 (missing_parameter "content")).
Proof. repeat split; try reflexivity. vm_compute. discriminate. Qed.

(** C6, as amended, on the run: the index of [a2] exists. *)
Lemma missing_parameter_400_witness :
  is_Some (indices ex_state5 !! index_of ex_a2)
  ∧ (ex_router (ex_world "a9" false)
       (mkRequest (Some alice) (GET_logs_search "a2" ex_query_none)) ex_state5).2
    = Send 400 (envelope 400 (missing_parameter "content"))
  ∧ (ex_router (ex_world "a9" false)
       (mkRequest (Some alice) (GET_logs_history "a2" ex_query_none)) ex_state5).2
    = Send 400 (envelope 400 (missing_parameter "before")).
Proof.
  assert (is_Some (indices ex_state5 !! index_of ex_a2)) as Hindex
    by (vm_compute; eauto).
  split; [exact Hindex |].
  destruct (missing_parameter_400 name_required decode_plain decimal_bound
    words_match ex_state5 (ex_world "a9" false) alice "a2" ex_query_none ex_a2
    eq_refl Hindex) as [Hsearch Hhistory].
  split; [apply Hsearch | apply Hhistory]; reflexivity.
Defined.

(** C7 on the run. *)
Lemma missing_index_empty_witness :
  indices ex_state5 !! index_of ex_a3 = None
  ∧ (ex_router (ex_world "a9" false)
       (mkRequest (Some alice) (GET_logs_search "a3" ex_query_page)) ex_state5).2
    = Send 200 (JArr [])
  ∧ (ex_router (ex_world "a9" false)
       (mkRequest (Some alice) (GET_logs_history "a3" ex_query_page)) ex_state5).2
    = Send 200 (JArr []).
Proof.
  split; [reflexivity |].
  apply (missing_index_empty name_required decode_plain decimal_bound
    words_match ex_state5 (ex_world "a9" false) alice "a3" ex_query_page ex_a3);
    reflexivity.
Defined.

(** C10 on the run. *)
Lemma index_check_first_witness :
  (ex_router (ex_world "a9" false)
     (mkRequest (Some alice) (GET_logs_search "a3" ex_query_none)) ex_state5).2
  = Send 200 (JArr [])
  ∧ (ex_router (ex_world "a9" false)
       (mkRequest (Some alice) (GET_logs_history "a3" ex_query_none)) ex_state5).2
    = Send 200 (JArr []).
Proof.
  destruct (index_check_first name_required decode_plain decimal_bound
    words_match ex_state5 (ex_world "a9" false) alice "a3" ex_query_none ex_a3
    eq_refl eq_refl) as [Hsearch Hhistory].
  split; [apply Hsearch | apply Hhistory]; reflexivity.
Defined.

(** C8 on the run: the page before record 3 with the words [disk full]. *)
Lemma history_before_witness :
  truthy (before ex_query_page) = Some "3"
  ∧ ∃ records,
      (ex_router (ex_world "a9" false)
         (mkRequest (Some alice) (GET_logs_history "a2" ex_query_page))
         ex_state5).2
      = Send 200 (JArr records).
Proof.
  split; [reflexivity |].
  apply (proj1 (history_before name_required decode_plain decimal_bound
    words_match ex_state5 (ex_world "a9" false) alice "a2" ex_query_page ex_a2
    "3" eq_refl eq_refl)).
  vm_compute. eauto.
Defined.

(** C9: the backend refuses the index of [a3]; the row is saved, and the
    request that would have been answered with the application ends
    without a response. *)
Lemma provisioning_failure_counterexample :
  name_required ex_body_batch = None
  ∧ may_create ex_state4 alice ex_body_batch
  ∧ ex_router (ex_world "a3" false)
      (mkRequest (Some alice) (POST_create ex_body_batch)) ex_state4
    = (set_indices (<["syslog-a3" := []]> (indices ex_state5)) ex_state5,
       Send 200 (entity_json ex_a3))
  ∧ ex_router (ex_world "a3" true)
      (mkRequest (Some alice) (POST_create ex_body_batch)) ex_state4
    = (ex_state5, Reject "index creation failed")
  ∧ ex_a3 ∈ applications ex_state5.
Proof.
  split; [reflexivity |]. split; [exact I |].
  split; [reflexivity |]. split; [reflexivity |]. by_compute.
Qed.

(** C9, as amended, on the run. *)
Lemma provisioning_failure_witness :
  backend_refuses (ex_world "a3" true) = true
  ∧ ∃ error,
      (post_create name_required (ex_world "a3" true) alice ex_body_batch
         ex_state4).2
      = Reject error.
Proof.
  split; [reflexivity |].
  apply (provisioning_failure name_required ex_state4 (ex_world "a3" true)
    alice ex_body_batch eq_refl I (or_introl eq_refl)).
Defined.

(** ** The further properties on the run *)

(** X1 on the run: the three records of [a2]. *)
Lemma recent_page_witness :
  indices ex_state5 !! index_of ex_a2 = Some ex_logs
  ∧ ∃ hits,
      (ex_router (ex_world "a9" false)
         (mkRequest (Some alice) (GET_logs_recent "a2")) ex_state5).2
      = Send 200 (JArr (map with_id hits))
      ∧ newest 75 ex_logs hits.
Proof.
  split; [reflexivity |].
  apply (recent_page name_required decode_plain decimal_bound words_match
    ex_state5 (ex_world "a9" false) alice "a2" ex_a2 ex_logs);
    reflexivity.
Defined.

(** X2 on the run: the records about a full disk. *)
Lemma search_page_witness :
  truthy (content ex_query_words) = Some "disk full"
  ∧ ∃ hits,
      (ex_router (ex_world "a9" false)
         (mkRequest (Some alice) (GET_logs_search "a2" ex_query_words))
         ex_state5).2
      = Send 200 (JArr (map with_id hits))
      ∧ newest 100
          (filter (λ d, matches decimal_bound words_match
                          (match_text "message" "disk full" "80%")
                          (hit_source d) = true) ex_logs) hits.
Proof.
  split; [reflexivity |].
  exact (search_page name_required decode_plain decimal_bound words_match
    ex_state5 (ex_world "a9" false) alice "a2" ex_query_words ex_a2 ex_logs
    "disk full" eq_refl eq_refl eq_refl).
Defined.

(** X3 on the run: the page before record 3. *)
Lemma history_page_witness :
  decimal_bound "3" = Some 3%Z
  ∧ ∃ hits,
      (ex_router (ex_world "a9" false)
         (mkRequest (Some alice) (GET_logs_history "a2" ex_query_page))
         ex_state5).2
      = Send 200 (JArr (map with_id hits))
      ∧ newest 100
          (filter (λ d, in_history words_match 3
                          (truthy (content ex_query_page))
                          (hit_source d) = true) ex_logs) hits.
Proof.
  split; [reflexivity |].
  apply (history_page name_required decode_plain decimal_bound words_match
    ex_state5 (ex_world "a9" false) alice "a2" ex_query_page ex_a2 ex_logs
    "3" 3%Z); reflexivity.
Defined.

(** X4 on the run: carol, who is not in [t1], asks for the records of [a2]. *)
Lemma denied_everywhere_witness :
  (param_applicationId carol "a2" ex_state5).2
  = Send 403 (envelope 403 "You have no access to this application")
  ∧ (ex_router (ex_world "a9" false)
       (mkRequest (Some carol) (GET_logs_recent "a2")) ex_state5).2
    = Send 403 (envelope 403 "You have no access to this application").
Proof.
  split; [reflexivity |].
  apply (denied_everywhere name_required decode_plain decimal_bound
    words_match ex_state5 (ex_world "a9" false) carol "a2"
    (GET_logs_recent "a2")); [constructor | reflexivity].
Defined.

(** X5 on the run: alice reads the application of her team. *)
Lemma read_iff_visible_witness :
  ex_reachable ex_state5
  ∧ visible ex_state5 alice ex_a2
  ∧ (ex_router (ex_world "a9" false)
       (mkRequest (Some alice) (GET_application "a2")) ex_state5).2
    = Send 200 (summary ex_a2).
Proof.
  assert (visible ex_state5 alice ex_a2) as Hvis.
  { right. exists ex_team. split; [by_compute |].
    split; [reflexivity | by_compute]. }
  split; [apply ex_state5_reachable |]. split; [exact Hvis |].
  apply (proj1 (read_iff_visible name_required decode_plain decimal_bound
    words_match ex_state5 (ex_world "a9" false) alice ex_a2
    ex_state5_reachable ltac:(by_compute))).
  exact Hvis.
Defined.

(** X6 on the run. *)
Lemma listed_iff_readable_witness :
  ex_reachable ex_state5
  ∧ ∃ entries,
      (ex_router (ex_world "a9" false) (mkRequest (Some alice) GET_list)
         ex_state5).2
      = Send 200 (JArr entries)
      ∧ (summary ex_a2 ∈ entries ↔
         (ex_router (ex_world "a8" false)
            (mkRequest (Some alice) (GET_application "a2")) ex_state5).2
         = Send 200 (summary ex_a2)).
Proof.
  split; [apply ex_state5_reachable |].
  apply (listed_iff_readable name_required decode_plain decimal_bound
    words_match ex_state5 (ex_world "a9" false) (ex_world "a8" false) alice
    ex_a2 ex_state5_reachable); [reflexivity | by_compute].
Defined.


(** X8 on the run: a search leaves tables and indices alone. *)
Lemma request_footprint_witness :
  applications
    (ex_router (ex_world "a9" false)
       (mkRequest (Some alice) (GET_logs_search "a2" ex_query_words))
       ex_state5).1
  = applications ex_state5
  ∧ indices
      (ex_router (ex_world "a9" false)
         (mkRequest (Some alice) (GET_logs_search "a2" ex_query_words))
         ex_state5).1
    = indices ex_state5.
Proof.
  apply (request_footprint name_required decode_plain decimal_bound
    words_match ex_state5 (ex_world "a9" false)
    (mkRequest (Some alice) (GET_logs_search "a2" ex_query_words))).
  intros body. discriminate.
Defined.

(** X9 on the run: the recent records of [a2]. *)
Lemma records_of_own_index_witness :
  ∃ records,
    (ex_router (ex_world "a9" false)
       (mkRequest (Some alice) (GET_logs_recent "a2")) ex_state5).2
    = Send 200 (JArr records)
    ∧ Forall (λ r, ∃ documents hit fields,
        indices ex_state5 !! index_of ex_a2 = Some documents
        ∧ hit ∈ documents
        ∧ r = JObj fields
        ∧ get_field "_id" fields = Some (JStr (hit_id hit))
        ∧ ∀ k, k ≠ "_id" → get_field k fields = get_field k (hit_source hit))
        records.
Proof.
  eexists. split; [vm_compute; reflexivity |].
  apply Forall_forall.
  apply (records_of_own_index name_required decode_plain decimal_bound
    words_match ex_state5 (ex_world "a9" false) alice "a2"
    (GET_logs_recent "a2") ex_a2); [constructor | reflexivity | reflexivity].
Defined.

(** X10 on the run: records written for [a3] do not show for [a2]. *)
Lemma tenant_isolation_witness :
  app_id ex_a3 ≠ app_id ex_a2
  ∧ (ex_router (ex_world "a9" false)
       (mkRequest (Some alice) (GET_logs_recent "a2"))
       (set_indices (<[index_of ex_a3 := ex_logs]> (indices ex_state5))
          ex_state5)).2
    = (ex_router (ex_world "a9" false)
         (mkRequest (Some alice) (GET_logs_recent "a2")) ex_state5).2.
Proof.
  split; [discriminate |].
  apply (proj2 (tenant_isolation name_required decode_plain decimal_bound
    words_match ex_state5 (ex_world "a9" false) alice "a2"
    (GET_logs_recent "a2") ex_a2 (logs_recent "a2") eq_refl) ex_a3 ex_logs).
  discriminate.
Defined.

(** X11 on the run: carol creates [a1] and reads it. *)
Lemma create_then_read_witness :
  ex_reachable ex_state0
  ∧ ∃ row,
      entity_json ex_a1 = entity_json row
      ∧ (ex_router (ex_world "a9" false)
           (mkRequest (Some carol) (GET_application (app_id row))) ex_state1).2
        = Send 200 (summary row)
      ∧ (ex_router (ex_world "a9" false)
           (mkRequest (Some carol) (GET_logs_recent (app_id row))) ex_state1).2
        = Send 200 (JArr []).
Proof.
  split; [apply ex_state0_reachable |].
  destruct (create_then_read name_required decode_plain decimal_bound
    words_match ex_state0 (ex_world "a1" false) carol
    (mkBody (Some "web") None) (entity_json ex_a1) ex_state0_reachable
    eq_refl eq_refl) as (row & Hrow & Hread).
  exists row. split; [exact Hrow |].
  destruct (Hread (ex_world "a9" false)) as (Hget & Hrecent & _).
  split; [exact Hget | exact Hrecent].
Defined.

Lemma sent_array_inj {A : Type} status (l l' : list json) :
  (Send status (JArr l) : Result A) = Send status (JArr l') → l = l'.
Proof. by intros [= ?]. Qed.

Lemma with_id_id_of h c : with_id h = with_id c → id_of h = id_of c.
Proof.
  unfold with_id, id_of. intros [= H].
  rewrite <- (get_field_set_field_ne "id" "_id" (JStr (hit_id h))) by done.
  rewrite H. by rewrite get_field_set_field_ne by done.
Qed.

Lemma ex_archive_order d1 d2 i1 i2 :
  d1 ∈ ex_archive → d2 ∈ ex_archive →
  id_of d1 = Some i1 → id_of d2 = Some i2 →
  time_desc d1 d2 → (i2 ≤ i1)%Z.
Proof.
  intros (n1 & -> & _)%list_elem_of_fmap (n2 & -> & _)%list_elem_of_fmap.
  change (id_of (ex_doc n1)) with (Some (Z.of_nat n1)).
  change (id_of (ex_doc n2)) with (Some (Z.of_nat n2)).
  intros [= <-] [= <-]. unfold time_desc.
  change (time_of (ex_doc n1)) with (Some (10 * Z.of_nat n1)%Z).
  change (time_of (ex_doc n2)) with (Some (10 * Z.of_nat n2)%Z).
  cbv beta iota. lia.
Qed.

(** X12 on the run: of the 150 records of the longer history, the first
    page holds the 100 newest and the page asked with the cursor at its
    least [id], 51, holds the 50 that are left. *)
Lemma history_next_page_witness :
  NoDup (map id_of ex_archive)
  ∧ ∃ hits1 hits2,
      (ex_router (ex_world "a9" false)
         (mkRequest (Some alice) (GET_logs_history "a2" ex_query_first))
         ex_state6).2
      = Send 200 (JArr (map with_id hits1))
      ∧ (ex_router (ex_world "a8" false)
           (mkRequest (Some alice) (GET_logs_history "a2" ex_query_second))
           ex_state6).2
        = Send 200 (JArr (map with_id hits2))
      ∧ length hits1 = 100%nat
      ∧ length hits2 = 50%nat
      ∧ Forall (λ h, h ∉ hits1) hits2
      ∧ newest 200
          (filter (λ d, in_history words_match 151
                          (truthy (content ex_query_first))
                          (hit_source d) = true) ex_archive)
          (hits1 ++ hits2).
Proof.
  assert (NoDup (map id_of ex_archive)) as Hids by by_compute.
  split; [exact Hids |].
  assert ((param_applicationId alice "a2" ex_state6).2 = Next ex_a2) as Hgrant
    by (vm_compute; reflexivity).
  assert (indices ex_state6 !! index_of ex_a2 = Some ex_archive) as Hdocs
    by (vm_compute; reflexivity).
  destruct (history_next_page name_required decode_plain decimal_bound
    words_match ex_state6 (ex_world "a9" false) alice "a2" ex_query_first
    ex_a2 ex_archive "151" 151%Z Hgrant Hdocs Hids ex_archive_order
    eq_refl eq_refl) as (hits1 & Hout1 & _ & Hnext).
  assert ((ex_router (ex_world "a9" false)
             (mkRequest (Some alice) (GET_logs_history "a2" ex_query_first))
             ex_state6).2
          = Send 200 (JArr (map with_id ex_first_page))) as Hpage1
    by (vm_compute; reflexivity).
  assert (Send 200 (JArr (map with_id ex_first_page))
          = (Send 200 (JArr (map with_id hits1)) : Result Empty_set)) as Hmap1
    by (rewrite <- Hout1; symmetry; exact Hpage1).
  apply sent_array_inj in Hmap1.
  assert (∀ h, h ∈ hits1 → ∃ c, c ∈ ex_first_page ∧ id_of h = id_of c) as Hfrom.
  { intros h Hh.
    assert (with_id h ∈ map with_id ex_first_page) as Hin'
      by (rewrite Hmap1; apply (list_elem_of_fmap_2 with_id); exact Hh).
    apply list_elem_of_fmap in Hin' as (c & Hc & Hin).
    exists c. split; [done | by apply with_id_id_of]. }
  assert (∃ hit, hit ∈ hits1 ∧ id_of hit = Some 51%Z) as (hit & Hhit & Hleast).
  { assert (with_id (ex_doc 51) ∈ map with_id hits1) as Hin.
    { rewrite <- Hmap1. apply list_elem_of_fmap_2.
      apply list_elem_of_fmap_2. by_compute. }
    apply list_elem_of_fmap in Hin as (hit & Hc & Hin).
    exists hit. split; [done |]. symmetry in Hc.
    by rewrite (with_id_id_of _ _ Hc). }
  assert (∀ h i, h ∈ hits1 → id_of h = Some i → (51 ≤ i)%Z) as Hmin.
  { intros h i Hh Hi. destruct (Hfrom h Hh) as (c & Hc & Hhc).
    apply list_elem_of_fmap in Hc as (n & -> & Hn).
    rewrite Hhc in Hi. change (id_of (ex_doc n)) with (Some (Z.of_nat n)) in Hi.
    injection Hi as <-. apply list_elem_of_In in Hn. apply in_rev in Hn.
    apply list_elem_of_In, elem_of_seq in Hn. lia. }
  destruct (Hnext (ex_world "a8" false) ex_query_second "51" 51%Z hit
    eq_refl eq_refl eq_refl Hhit Hleast Hmin) as (hits2 & Hout2 & Hdisj & Hnew).
  assert ((ex_router (ex_world "a8" false)
             (mkRequest (Some alice) (GET_logs_history "a2" ex_query_second))
             ex_state6).2
          = Send 200 (JArr (map with_id ex_second_page))) as Hpage2
    by (vm_compute; reflexivity).
  assert (Send 200 (JArr (map with_id ex_second_page))
          = (Send 200 (JArr (map with_id hits2)) : Result Empty_set)) as Hmap2
    by (rewrite <- Hout2; symmetry; exact Hpage2).
  apply sent_array_inj in Hmap2.
  exists hits1, hits2. split; [exact Hout1 |]. split; [exact Hout2 |].
  split; [| split; [| split]].
  - transitivity (length (map with_id hits1));
      [symmetry; apply length_fmap | rewrite <- Hmap1; reflexivity].
  - transitivity (length (map with_id hits2));
      [symmetry; apply length_fmap | rewrite <- Hmap2; reflexivity].
  - apply Forall_forall. exact Hdisj.
  - exact Hnew.
Defined.

(** X13 on the run. *)
Lemma not_logged_in_iff_witness :
  (ex_router (ex_world "a9" false) (mkRequest None (GET_logs_recent "a2"))
     ex_state5).2
  = Send 403 (envelope 403 "Not logged in").
Proof.
  apply (proj1 (not_logged_in_iff name_required decode_plain decimal_bound
    words_match ex_state5 (ex_world "a9" false)
    (mkRequest None (GET_logs_recent "a2")))).
  reflexivity.
Defined.
